(** * Shadow-variable recovery of self-censoring missingness

    A shallow embedding of [self_censoring_recovery_small_example.py]:
    the data generator [generateData], the two systems of shadow IPW
    estimating equations [shadowIpwFunctional_A] / [shadowIpwFunctional_Y]
    and the two predictors [rootsPrediction_A] / [rootsPrediction_Y].

    Numbers.  The development reads float64 twice.  In its first part a
    float64 is [float64]: an exact real number, or one of the IEEE special
    values [+inf], [-inf], [nan]; arithmetic on the special values follows
    IEEE 754 as numpy applies it (division by zero gives an infinity or
    [nan] and raises nothing), arithmetic on finite values is exact, and
    zero carries no sign.  That part carries what does not depend on
    rounding: which entries are read and combined, in which order, what is
    stored, printed and raised.  The module [Binary64] embeds the four
    functions again over IEEE 754 binary64 itself, with rounding, signed
    zeros, overflow and underflow; there the library functions (the
    sigmoid, the power, the sum) enter through their contract.  It carries
    the statements about the numbers that are returned.  An int64 is
    modelled by [Z], with the wrap-around written out where the program
    multiplies integers; the integers it handles are 0, 1 and the
    sentinel -1.

    Objects.  pandas Series live in an object store and are referred to by
    location; a DataFrame is a record of six column locations.  The Python
    functions become computations of the monad [Py], which threads the
    store, the process-wide random generator and the printed output, and
    may raise. *)

From Stdlib Require Import Reals Lra ZArith SpecFloat.
From stdpp Require Import base list strings.

Open Scope R_scope.

(** ** float64 *)

Inductive float64 : Type :=
  | Fin (r : R)
  | PInf
  | NInf
  | NaN.

Definition of_int (n : Z) : float64 := Fin (IZR n).

Definition fneg (x : float64) : float64 :=
  match x with
  | Fin r => Fin (- r)
  | PInf => NInf
  | NInf => PInf
  | NaN => NaN
  end.

Definition fadd (x y : float64) : float64 :=
  match x, y with
  | NaN, _ | _, NaN => NaN
  | Fin a, Fin b => Fin (a + b)
  | PInf, NInf | NInf, PInf => NaN
  | PInf, _ | _, PInf => PInf
  | NInf, _ | _, NInf => NInf
  end.

Definition fsub (x y : float64) : float64 := fadd x (fneg y).

(** [signed_inf r] is the infinity carrying the sign of the non-zero [r]. *)
Definition signed_inf (r : R) : float64 :=
  if Rlt_dec 0 r then PInf else NInf.

Definition fmul (x y : float64) : float64 :=
  match x, y with
  | NaN, _ | _, NaN => NaN
  | Fin a, Fin b => Fin (a * b)
  | PInf, Fin r | Fin r, PInf =>
      if Req_dec_T r 0 then NaN else signed_inf r
  | NInf, Fin r | Fin r, NInf =>
      if Req_dec_T r 0 then NaN else signed_inf (- r)
  | PInf, PInf | NInf, NInf => PInf
  | PInf, NInf | NInf, PInf => NInf
  end.

(** numpy's true division: [x / 0] is an infinity for [x <> 0] and [nan]
    for [x = 0]; a finite number over an infinity is 0. *)
Definition fdiv (x y : float64) : float64 :=
  match x, y with
  | NaN, _ | _, NaN => NaN
  | Fin a, Fin b =>
      if Req_dec_T b 0
      then (if Req_dec_T a 0 then NaN else signed_inf a)
      else Fin (a / b)
  | Fin _, PInf | Fin _, NInf => Fin 0
  | PInf, Fin b => if Rlt_dec b 0 then NInf else PInf
  | NInf, Fin b => if Rlt_dec b 0 then PInf else NInf
  | PInf, PInf | PInf, NInf | NInf, PInf | NInf, NInf => NaN
  end.

(** [x ** n] for a float64 base and an int64 exponent: numpy converts the
    exponent and calls C's [pow]. *)
Definition fpow (x : float64) (n : Z) : float64 :=
  if Z.eqb n 0 then Fin 1
  else match x with
       | NaN => NaN
       | Fin a =>
           if Z.ltb n 0
           then (if Req_dec_T a 0 then PInf else Fin (powerRZ a n))
           else Fin (powerRZ a n)
       | PInf => if Z.ltb n 0 then Fin 0 else PInf
       | NInf =>
           if Z.ltb n 0 then Fin 0
           else if Z.odd n then NInf else PInf
       end.

(** scipy.special.expit, the logistic sigmoid [1 / (1 + exp (-x))]. *)
Definition expit (x : R) : R := 1 / (1 + exp (- x)).

Definition fexpit (x : float64) : float64 :=
  match x with
  | Fin r => Fin (expit r)
  | PInf => Fin 1
  | NInf => Fin 0
  | NaN => NaN
  end.

Definition is_finite (x : float64) : bool :=
  match x with Fin _ => true | _ => false end.

(** ** Scalars, Series and broadcasting *)

(** A float-valued Python operand: a scalar or a one-dimensional array
    (numpy ndarray or pandas Series with the default index). *)
Inductive value : Type :=
  | Scalar (x : float64)
  | Series (l : list float64).

(** An integer-valued operand (Python int, int64 ndarray or Series). *)
Inductive ivalue : Type :=
  | IScalar (n : Z)
  | ISeries (l : list Z).

(** Promotion of int64 to float64, applied by numpy when an integer operand
    meets a float one. *)
Definition promote (v : ivalue) : value :=
  match v with
  | IScalar n => Scalar (of_int n)
  | ISeries l => Series (map of_int l)
  end.

Coercion promote : ivalue >-> value.

(** Elementwise application with broadcasting of scalars.  The Series of
    one DataFrame share their length and index, so pairing is positional. *)
Definition broadcast (op : float64 -> float64 -> float64) (a b : value) : value :=
  match a, b with
  | Scalar x, Scalar y => Scalar (op x y)
  | Scalar x, Series l => Series (map (op x) l)
  | Series l, Scalar y => Series (map (fun x => op x y) l)
  | Series l1, Series l2 => Series (zip_with op l1 l2)
  end.

Definition vadd : value -> value -> value := broadcast fadd.
Definition vsub : value -> value -> value := broadcast fsub.
Definition vmul : value -> value -> value := broadcast fmul.
Definition vdiv : value -> value -> value := broadcast fdiv.

(** [a ** e] with an integer exponent. *)
Definition vpow (a : value) (e : ivalue) : value :=
  match a, e with
  | Scalar x, IScalar n => Scalar (fpow x n)
  | Scalar x, ISeries l => Series (map (fpow x) l)
  | Series l, IScalar n => Series (map (fun x => fpow x n) l)
  | Series l1, ISeries l2 => Series (zip_with fpow l1 l2)
  end.

Definition vexpit (a : value) : value :=
  match a with
  | Scalar x => Scalar (fexpit x)
  | Series l => Series (map fexpit l)
  end.

(** A Python float and a Python int literal as operands. *)
Definition float_ (r : R) : value := Scalar (Fin r).
Definition int_ (n : Z) : ivalue := IScalar n.

Declare Scope np_scope.
Delimit Scope np_scope with np.
Bind Scope np_scope with value.
Notation "a + b" := (vadd a b) : np_scope.
Notation "a - b" := (vsub a b) : np_scope.
Notation "a * b" := (vmul a b) : np_scope.
Notation "a / b" := (vdiv a b) : np_scope.
Notation "a ** e" := (vpow a e) (at level 30, right associativity) : np_scope.

(** Sum of the entries, accumulated from 0.0. *)
Definition fsum (l : list float64) : float64 := foldr fadd (Fin 0) l.

(** np.average without weights: the sum over the number of entries.  On
    an empty array this is 0.0/0 = nan (numpy warns and raises nothing). *)
Definition np_average (a : value) : float64 :=
  match a with
  | Scalar x => x
  | Series l => fdiv (fsum l) (Fin (INR (length l)))
  end.

(** ** The interpreter state and the monad of Python computations *)

(** A location in the object store. *)
Definition loc := nat.

(** What [print] writes: one list of items per call. *)
Inductive pyobj : Type :=
  | PyInt (n : Z)
  | PyFloat (x : float64)
  | PyStr (s : string).

(** State of numpy's process-wide generator (the words of its Mersenne
    Twister); only the sampling primitives look inside. *)
Definition rng_state := list Z.

Record state : Type := State {
  ints : list (list Z);          (* int64 Series objects, by location *)
  floats : list (list float64);  (* float64 Series objects, by location *)
  rng : rng_state;               (* np.random's global state *)
  stdout : list (list pyobj)     (* lines printed so far *)
}.

Inductive exn : Type :=
  | IndexError
  | ValueError.

Inductive result (A : Type) : Type :=
  | Ok (a : A)
  | Raised (e : exn).
Arguments Ok {A} a.
Arguments Raised {A} e.

Definition Py (A : Type) : Type := state -> result A * state.

Definition ret {A} (a : A) : Py A := fun s => (Ok a, s).
Definition raise {A} (e : exn) : Py A := fun s => (Raised e, s).
Definition bind {A B} (m : Py A) (k : A -> Py B) : Py B :=
  fun s => match m s with
           | (Ok a, s') => k a s'
           | (Raised e, s') => (Raised e, s')
           end.
(** A pure step that may raise. *)
Definition lift {A} (r : result A) : Py A := fun s => (r, s).
Definition when (b : bool) (m : Py unit) : Py unit := if b then m else ret tt.

Notation "x <- m ;; k" := (bind m (fun x => k))
  (at level 100, m at next level, right associativity).
Notation "m ;; k" := (bind m (fun _ => k))
  (at level 100, right associativity).

(** [l[i]] for a non-negative index. *)
Definition index {A} (l : list A) (i : nat) : result A :=
  match l !! i with
  | Some x => Ok x
  | None => Raised IndexError
  end.

Definition print (items : list pyobj) : Py unit :=
  fun s => (Ok tt, State (ints s) (floats s) (rng s) (stdout s ++ [items])).

(** *** Series objects *)

Definition new_int_series (l : list Z) : Py loc :=
  fun s => (Ok (length (ints s)),
            State (ints s ++ [l]) (floats s) (rng s) (stdout s)).

Definition new_float_series (l : list float64) : Py loc :=
  fun s => (Ok (length (floats s)),
            State (ints s) (floats s ++ [l]) (rng s) (stdout s)).

Definition read_int (a : loc) (s : state) : list Z := default [] (ints s !! a).
Definition read_float (a : loc) (s : state) : list float64 :=
  default [] (floats s !! a).

Definition get_int (a : loc) : Py (list Z) := fun s => (Ok (read_int a s), s).
Definition get_float (a : loc) : Py (list float64) :=
  fun s => (Ok (read_float a s), s).

(** [series.copy()]: a new object with the same entries. *)
Definition copy (a : loc) : Py loc := l <- get_int a ;; new_int_series l.

(** [series[mask] = v]: in-place assignment at the positions where the
    boolean mask is true. *)
Definition assign_where (mask : list bool) (v : Z) (l : list Z) : list Z :=
  zip_with (fun (m : bool) x => if m then v else x) mask l.

Definition setitem_mask (a : loc) (mask : list bool) (v : Z) : Py unit :=
  fun s => (Ok tt,
            State (alter (assign_where mask v) a (ints s))
                  (floats s) (rng s) (stdout s)).

(** *** DataFrames *)

(** The column names ["W1"], ["W2"] (float64) and ["A"], ["Y"], ["R_A"],
    ["R_Y"] (int64) of the program's DataFrames; the functions below take
    them as arguments, as the source takes the strings. *)
Module Col.
Inductive fname : Type := W1 | W2.
Inductive iname : Type := A | Y | R_A | R_Y.
End Col.

Record DataFrame : Type := mkDataFrame {
  col_A : loc;
  col_Y : loc;
  col_W1 : loc;
  col_W2 : loc;
  col_R_A : loc;
  col_R_Y : loc
}.

Definition floc (df : DataFrame) (c : Col.fname) : loc :=
  match c with Col.W1 => col_W1 df | Col.W2 => col_W2 df end.

Definition iloc (df : DataFrame) (c : Col.iname) : loc :=
  match c with
  | Col.A => col_A df
  | Col.Y => col_Y df
  | Col.R_A => col_R_A df
  | Col.R_Y => col_R_Y df
  end.

(** [data[c]] used as an operand: the entries of the column. *)
Definition getitem_f (df : DataFrame) (c : Col.fname) : Py value :=
  l <- get_float (floc df c) ;; ret (Series l).
Definition getitem_i (df : DataFrame) (c : Col.iname) : Py ivalue :=
  l <- get_int (iloc df c) ;; ret (ISeries l).

(** [pd.DataFrame({"A": A, "Y": Y, "W1": W1, "W2": W2, "R_A": R_A,
    "R_Y": R_Y})]: the frame copies the arrays it is given into columns
    of its own. *)
Definition pd_DataFrame (A Y : list Z) (W1 W2 : list float64)
    (R_A R_Y : list Z) : Py DataFrame :=
  a <- new_int_series A ;;
  y <- new_int_series Y ;;
  w1 <- new_float_series W1 ;;
  w2 <- new_float_series W2 ;;
  ra <- new_int_series R_A ;;
  ry <- new_int_series R_Y ;;
  ret (mkDataFrame a y w1 w2 ra ry).

(** ** numpy's integer arrays and random sampling *)

(** int64 arithmetic wraps around. *)
Definition wrap64 (z : Z) : Z := ((z + 2 ^ 63) mod 2 ^ 64 - 2 ^ 63)%Z.

Definition imul (a b : ivalue) : ivalue :=
  let op x y := wrap64 (x * y) in
  match a, b with
  | IScalar x, IScalar y => IScalar (op x y)
  | IScalar x, ISeries l => ISeries (map (op x) l)
  | ISeries l, IScalar y => ISeries (map (fun x => op x y) l)
  | ISeries l1, ISeries l2 => ISeries (zip_with op l1 l2)
  end.

(** [series == n], elementwise. *)
Definition eq_int (l : list Z) (n : Z) : list bool := map (fun x => Z.eqb x n) l.

(** np.bincount: occurrences of each of 0 .. max; negative entries are
    refused. *)
Definition np_bincount (l : list Z) : result (list Z) :=
  if existsb (fun x => Z.ltb x 0) l then Raised ValueError
  else
    let top := foldr Z.max (-1)%Z l in
    Ok (map (fun k => Z.of_nat (length (filter (fun x => x = k) l)))
            (seqZ 0 (top + 1))).

(** The sampling primitives of np.random, as functions of the generator
    state.  [binomial n p] draws one Binomial(n, p_i) variate per entry of
    the probability array [p]; [normal loc scale size] draws [size]
    Normal(loc, scale) variates.  The record carries what the program
    relies on: the shape of the result and the range of a binomial
    variate. *)
Record Sampler : Type := {
  seed : Z -> rng_state;
  normal : R -> R -> nat -> rng_state -> list R * rng_state;
  binomial : Z -> list R -> rng_state -> list Z * rng_state;
  normal_length : forall m sd size g, length (normal m sd size g).1 = size;
  binomial_length : forall n p g, length (binomial n p g).1 = length p;
  binomial_range : forall n p g,
    (0 <= n)%Z -> Forall (fun k => (0 <= k <= n)%Z) (binomial n p g).1
}.

(** A valid probability: finite and in [0, 1]. *)
Definition probability (x : float64) : option R :=
  match x with
  | Fin r => if Rle_dec 0 r then if Rle_dec r 1 then Some r else None else None
  | _ => None
  end.

Section Random.
Variable np_random : Sampler.

Definition np_random_seed (n : Z) : Py unit :=
  fun s => (Ok tt, State (ints s) (floats s) (seed np_random n) (stdout s)).

Definition np_random_normal (m sd : R) (size : nat) : Py (list float64) :=
  fun s =>
    if Rlt_dec sd 0 then (Raised ValueError, s)
    else
      let (l, g) := normal np_random m sd size (rng s) in
      (Ok (map Fin l), State (ints s) (floats s) g (stdout s)).

(** np.random.binomial(n, p, size) with an array [p] of shape [(size,)];
    a [p] that is not a probability, or of another shape, is refused. *)
Definition np_random_binomial (n : Z) (p : value) (size : nat) : Py (list Z) :=
  fun s =>
    match p with
    | Scalar x =>
        match probability x with
        | Some r =>
            let (l, g) := binomial np_random n (replicate size r) (rng s) in
            (Ok l, State (ints s) (floats s) g (stdout s))
        | None => (Raised ValueError, s)
        end
    | Series ps =>
        match mapM probability ps with
        | Some rs =>
            if Nat.eqb (length rs) size then
              let (l, g) := binomial np_random n rs (rng s) in
              (Ok l, State (ints s) (floats s) g (stdout s))
            else (Raised ValueError, s)
        | None => (Raised ValueError, s)
        end
    end.

(** ** generateData *)

(** A scalar entry of the dict is repeated for every row. *)
Definition column (n : nat) (v : value) : list float64 :=
  match v with
  | Series l => l
  | Scalar x => replicate n x
  end.

(** [print("proportion of X=1:", np.bincount(X)[1]/size)] *)
Definition print_proportion (label : string) (X : list Z) (size : nat) : Py unit :=
  counts <- lift (np_bincount X) ;;
  ones <- lift (index counts 1) ;;
  print [PyStr label; PyFloat (fdiv (of_int ones) (of_int (Z.of_nat size)))].

(** The second half of [generateData]: the partially observed dataset,
    from the fully observed frame and the arrays it was built from.
    [full_data["A"]] is the frame's own column object; [.copy()] makes the
    Series that the masked assignment then changes in place. *)
Definition derive_partial_data (full_data : DataFrame)
    (W1 W2 : list float64) (R_A R_Y : list Z) : Py DataFrame :=
  A <- copy (iloc full_data Col.A) ;;
  observed <- get_int (iloc full_data Col.R_A) ;;
  setitem_mask A (eq_int observed 0) (-1) ;;
  Y <- copy (iloc full_data Col.Y) ;;
  observed <- get_int (iloc full_data Col.R_Y) ;;
  setitem_mask Y (eq_int observed 0) (-1) ;;
  A_masked <- get_int A ;;
  Y_masked <- get_int Y ;;
  pd_DataFrame A_masked Y_masked W1 W2 R_A R_Y.

Definition generateData (size : nat) (verbose : bool) : Py (DataFrame * DataFrame) :=
  when verbose (print [PyInt (Z.of_nat size)]) ;;
  W1 <- np_random_normal 0 1 size ;;
  N2 <- np_random_normal 0 1 size ;;
  let W2 := (Series N2 + float_ 1.4 * Series W1)%np in
  A <- np_random_binomial 1 (vexpit (Series W1 + W2)) size ;;
  when verbose (print_proportion "proportion of A=1:" A size) ;;
  Y <- np_random_binomial 1 (vexpit (W2 + ISeries A - float_ 0.4)) size ;;
  when verbose (print_proportion "proportion of Y=1:" Y size) ;;
  (* R_A=1 denotes observed value of A *)
  R_A <- np_random_binomial 1
           (vexpit (imul (int_ 2) (ISeries A) + float_ 0.3)) size ;;
  when verbose (print_proportion "proportion of R_A=1:" R_A size) ;;
  (* R_Y=1 denotes observed value of Y *)
  R_Y <- np_random_binomial 1
           (vexpit (imul (int_ 2) (ISeries Y) + W2 + float_ 0.8)) size ;;
  when verbose (print_proportion "proportion of R_Y=1:" R_Y size) ;;
  (* create fully observed dataset *)
  full_data <- pd_DataFrame A Y W1 (column size W2) R_A R_Y ;;
  (* create partially observed dataset *)
  partial_data <- derive_partial_data full_data W1 (column size W2) R_A R_Y ;;
  ret (full_data, partial_data).

(** The first two statements of the script's entry point, for any seed
    and size: seed the process-wide generator, then generate. *)
Definition seeded_generateData (seed_ : Z) (size : nat) (verbose : bool)
    : Py (DataFrame * DataFrame) :=
  np_random_seed seed_ ;;
  generateData size verbose.
End Random.

(** ** The shadow IPW functionals and the predictions *)

(** [params[i]] as an operand. *)
Definition param (params : list R) (i : nat) : Py value :=
  r <- lift (index params i) ;; ret (float_ r).

(** The system of shadow IPW functions for a shadow variable [W_1], a
    covariate [W_2], the missingness indicator [R_Y] and the self-censoring
    outcome [Y]; [params] is alpha_0, alpha_1, gamma_0, gamma_1. *)
Definition shadowIpwFunctional_Y (params : list R) (W_1 W_2 : Col.fname)
    (R_Y Y : Col.iname) (data : DataFrame) : Py (list float64) :=
  params_0 <- param params 0 ;;
  params_1 <- param params 1 ;;
  data_W_2 <- getitem_f data W_2 ;;
  (* p(R_Y=1 | Y=0) *)
  let pRY_Y_0 := vexpit (params_0 + params_1 * data_W_2) in
  params_2 <- param params 2 ;;
  params_3 <- param params 3 ;;
  data_Y <- getitem_i data Y ;;
  let pRY_1 :=
    (pRY_Y_0 / (pRY_Y_0 + ((params_2 + params_3 * data_W_2) ** data_Y)
                          * (int_ 1 - pRY_Y_0)))%np in
  data_W_1 <- getitem_f data W_1 ;;
  data_R_Y <- getitem_i data R_Y ;;
  let output1 := np_average
    (((data_W_1 * data_W_2) * data_R_Y) / pRY_1 - (data_W_1 * data_W_2)) in
  let output2 := np_average
    (((data_W_1 * data_W_2 + int_ 1) * data_R_Y) / pRY_1
     - (data_W_1 * data_W_2 + int_ 1)) in
  let output3 := np_average
    (((data_W_1 * data_W_2 ** int_ 2) * data_R_Y) / pRY_1
     - (data_W_1 * data_W_2 ** int_ 2)) in
  let output4 := np_average
    (((data_W_1 * data_W_2 ** int_ 2 + int_ 1) * data_R_Y) / pRY_1
     - (data_W_1 * data_W_2 ** int_ 2 + int_ 1)) in
  ret [output1; output2; output3; output4].

(** Predictions of p(R_Y=1 | Y, W2) from the roots. *)
Definition rootsPrediction_Y (roots : list R) (W_2 : Col.fname) (Y : Col.iname)
    (data : DataFrame) : Py value :=
  roots_0 <- param roots 0 ;;
  roots_1 <- param roots 1 ;;
  data_W_2 <- getitem_f data W_2 ;;
  let pRY_1_Y_0 := vexpit (roots_0 + roots_1 * data_W_2) in
  roots_2 <- param roots 2 ;;
  roots_3 <- param roots 3 ;;
  data_Y <- getitem_i data Y ;;
  let predictions :=
    (pRY_1_Y_0 / (pRY_1_Y_0 + (roots_2 + roots_3 * data_W_2) ** data_Y
                              * (int_ 1 - pRY_1_Y_0)))%np in
  ret predictions.

(** The system of shadow IPW functions for a shadow variable [W_1], the
    missingness indicator [R_A] and the self-censoring variable [A];
    [params] is alpha_0, gamma. *)
Definition shadowIpwFunctional_A (params : list R) (W_1 : Col.fname)
    (R_A A : Col.iname) (data : DataFrame) : Py (list float64) :=
  params_0 <- param params 0 ;;
  let pRA_A_0 := vexpit params_0 in
  params_1 <- param params 1 ;;
  data_A <- getitem_i data A ;;
  let pRA_1 :=
    (pRA_A_0 / (pRA_A_0 + (params_1 ** data_A) * (int_ 1 - pRA_A_0)))%np in
  data_W_1 <- getitem_f data W_1 ;;
  data_R_A <- getitem_i data R_A ;;
  let output1 := np_average ((data_W_1 * data_R_A) / pRA_1 - data_W_1) in
  let output2 := np_average
    ((data_W_1 ** int_ 2 * data_R_A) / pRA_1 - data_W_1 ** int_ 2) in
  ret [output1; output2].

(** Predictions of p(R_A=1 | A) from the roots. *)
Definition rootsPrediction_A (roots : list R) (A : Col.iname)
    (data : DataFrame) : Py value :=
  roots_0 <- param roots 0 ;;
  let pRA_A_0 := vexpit roots_0 in
  roots_1 <- param roots 1 ;;
  data_A <- getitem_i data A ;;
  let predictions :=
    (pRA_A_0 / (pRA_A_0 + roots_1 ** data_A * (int_ 1 - pRA_A_0)))%np in
  ret predictions.

(** ** Datasets as lists of units *)

(** One observation: the covariates are real numbers, the other four
    fields integers (0, 1 or the sentinel). *)
Record row : Type := mkRow {
  row_A : Z;
  row_Y : Z;
  row_W1 : R;
  row_W2 : R;
  row_R_A : Z;
  row_R_Y : Z
}.

Definition fsel (c : Col.fname) (u : row) : R :=
  match c with Col.W1 => row_W1 u | Col.W2 => row_W2 u end.

Definition isel (c : Col.iname) (u : row) : Z :=
  match c with
  | Col.A => row_A u
  | Col.Y => row_Y u
  | Col.R_A => row_R_A u
  | Col.R_Y => row_R_Y u
  end.

(** In state [s] the six columns of [df] hold, row by row, the fields of
    [rows]. *)
Definition represents (s : state) (df : DataFrame) (rows : list row) : Prop :=
  (forall c, floats s !! floc df c = Some (map (fun u => Fin (fsel c u)) rows)) /\
  (forall c, ints s !! iloc df c = Some (map (isel c) rows)).

(** The sentinel that stands for a missing [A] or [Y]. *)
Definition sentinel : Z := (-1)%Z.

(** ** The estimating equations as the specification writes them *)

Module Spec.
(** [average f rows]: the sample average of the per-row quantity [f]. *)
Definition average (f : row -> float64) (rows : list row) : float64 :=
  fdiv (fsum (map f rows)) (Fin (INR (length rows))).

(** [p1 = p0 / (p0 + odds^x * (1 - p0))] *)
Definition p1 (p0 odds : float64) (x : Z) : float64 :=
  fdiv p0 (fadd p0 (fmul (fpow odds x) (fsub (Fin 1) p0))).

(** The shadow-IPW summand [h * R / p - h]. *)
Definition ipw (h : float64) (r : Z) (p : float64) : float64 :=
  fsub (fdiv (fmul h (of_int r)) p) h.

(** Exposure variant: [p0 = sigmoid(alpha_0)], [p1] at the row's [A]. *)
Definition p1_A (alpha_0 gamma : R) (u : row) : float64 :=
  p1 (Fin (expit alpha_0)) (Fin gamma) (row_A u).

Definition residuals_A (alpha_0 gamma : R) (rows : list row) : list float64 :=
  [ average (fun u => ipw (Fin (row_W1 u)) (row_R_A u) (p1_A alpha_0 gamma u)) rows;
    average (fun u => ipw (Fin (row_W1 u ^ 2)) (row_R_A u) (p1_A alpha_0 gamma u)) rows ].

(** Outcome variant: [p0(w2) = sigmoid(alpha_0 + alpha_1 * w2)] and the
    odds ratio [gamma_0 + gamma_1 * w2]. *)
Definition p0_Y (alpha_0 alpha_1 : R) (u : row) : R :=
  expit (alpha_0 + alpha_1 * row_W2 u).

Definition odds_Y (gamma_0 gamma_1 : R) (u : row) : R :=
  gamma_0 + gamma_1 * row_W2 u.

Definition p1_Y (alpha_0 alpha_1 gamma_0 gamma_1 : R) (u : row) : float64 :=
  p1 (Fin (p0_Y alpha_0 alpha_1 u)) (Fin (odds_Y gamma_0 gamma_1 u)) (row_Y u).

(** The four instrument functions, in order. *)
Definition instruments : list (row -> R) :=
  [ fun u => row_W1 u * row_W2 u;
    fun u => row_W1 u * row_W2 u + 1;
    fun u => row_W1 u * row_W2 u ^ 2;
    fun u => row_W1 u * row_W2 u ^ 2 + 1 ].

Definition residuals_Y (alpha_0 alpha_1 gamma_0 gamma_1 : R) (rows : list row)
    : list float64 :=
  map (fun h =>
         average (fun u => ipw (Fin (h u)) (row_R_Y u)
                               (p1_Y alpha_0 alpha_1 gamma_0 gamma_1 u)) rows)
      instruments.

(** *** The generative structure, row by row *)

(** Row [i] of a dataset given by its six columns. *)
Definition rows_of (size : nat) (A Y : list Z) (W1 W2 : list R)
    (R_A R_Y : list Z) : list row :=
  map (fun i => mkRow (nth i A 0%Z) (nth i Y 0%Z) (nth i W1 0) (nth i W2 0)
                      (nth i R_A 0%Z) (nth i R_Y 0%Z))
      (seq 0 size).

(** Steps 1 to 6: the draws, in order, each from the generator state the
    previous one left; a Bernoulli(p) draw is a Binomial(1, p) draw. *)
Definition generate (np_random : Sampler) (size : nat) (g : rng_state)
    : list row * rng_state :=
  let '(W1, g) := normal np_random 0 1 size g in
  let '(N, g) := normal np_random 0 1 size g in
  let W2 := zip_with (fun n w1 => n + 1.4 * w1) N W1 in
  let '(A, g) :=
    binomial np_random 1
      (zip_with (fun w1 w2 => expit (w1 + w2)) W1 W2) g in
  let '(Y, g) :=
    binomial np_random 1
      (zip_with (fun w2 a => expit (w2 + IZR a - 0.4)) W2 A) g in
  let '(R_A, g) :=
    binomial np_random 1 (map (fun a => expit (2 * IZR a + 0.3)) A) g in
  let '(R_Y, g) :=
    binomial np_random 1
      (zip_with (fun y w2 => expit (2 * IZR y + w2 + 0.8)) Y W2) g in
  (rows_of size A Y W1 W2 R_A R_Y, g).

(** The masking rule with the number [k] standing for a missing value:
    [A] becomes [k] where [R_A = 0], [Y] where [R_Y = 0]; nothing else
    changes. *)
Definition mask_with (k : Z) (u : row) : row :=
  mkRow (if Z.eqb (row_R_A u) 0 then k else row_A u)
        (if Z.eqb (row_R_Y u) 0 then k else row_Y u)
        (row_W1 u) (row_W2 u) (row_R_A u) (row_R_Y u).

Definition mask : row -> row := mask_with sentinel.

(** *** Residuals with the masked rows written out *)

(** The summand of a row: [- h] when the row is masked ([r = 0]), the
    shadow-IPW summand otherwise. *)
Definition masked_ipw (h : R) (r : Z) (p : float64) : float64 :=
  if Z.eqb r 0 then Fin (- h) else ipw (Fin h) r p.

Definition masked_residuals_A (alpha_0 gamma : R) (rows : list row)
    : list float64 :=
  [ average (fun u => masked_ipw (row_W1 u) (row_R_A u)
                                 (p1_A alpha_0 gamma u)) rows;
    average (fun u => masked_ipw (row_W1 u ^ 2) (row_R_A u)
                                 (p1_A alpha_0 gamma u)) rows ].

Definition masked_residuals_Y (alpha_0 alpha_1 gamma_0 gamma_1 : R)
    (rows : list row) : list float64 :=
  map (fun h =>
         average (fun u => masked_ipw (h u) (row_R_Y u)
                                      (p1_Y alpha_0 alpha_1 gamma_0 gamma_1 u))
                 rows)
      instruments.
End Spec.


(** ** Where the generator puts its frames *)

(** A frame whose int64 columns start at location [a] and whose float64
    columns start at [b], in the order [pd.DataFrame] creates them. *)
Definition frame_at (a b : nat) : DataFrame :=
  mkDataFrame a (a + 1)%nat b (b + 1)%nat (a + 2)%nat (a + 3)%nat.

Definition int_columns (rows : list row) : list (list Z) :=
  [map row_A rows; map row_Y rows; map row_R_A rows; map row_R_Y rows].

Definition float_columns (rows : list row) : list (list float64) :=
  [map (fun u => Fin (row_W1 u)) rows; map (fun u => Fin (row_W2 u)) rows].

(** ** Vocabulary of the statements *)

(** A binary value. *)
Definition binary (k : Z) : Prop := k = 0%Z \/ k = 1%Z.

Definition binary_row (u : row) : Prop :=
  binary (row_A u) /\ binary (row_Y u) /\
  binary (row_R_A u) /\ binary (row_R_Y u).

(** Masking consistency between a row [uf] of the full dataset and the
    row [up] of the partial dataset at the same position. *)
Definition masking_consistent (uf up : row) : Prop :=
  (row_R_A up = 1%Z <-> row_A up = row_A uf) /\
  (row_R_A up = 0%Z <-> row_A up = sentinel) /\
  (row_R_Y up = 1%Z <-> row_Y up = row_Y uf) /\
  (row_R_Y up = 0%Z <-> row_Y up = sentinel) /\
  row_W1 up = row_W1 uf /\ row_W2 up = row_W2 uf /\
  row_R_A up = row_R_A uf /\ row_R_Y up = row_R_Y uf.

(** A computation that leaves the interpreter state as it found it. *)
Definition read_only {A} (m : Py A) : Prop := forall s, (m s).2 = s.



(** The store that holds nothing but the dataset [rows], in the frame
    [frame_at 0 0]. *)
Definition store_of (rows : list row) : state :=
  State (int_columns rows) (float_columns rows) [] [].

(** ** A sampler and a dataset to run the definitions on *)

(** A sampler that meets the contract of [Sampler] without any randomness:
    every normal variate is its mean, binomial variates alternate between
    0 and [min 1 n], and each call advances the words of the state. *)
Program Definition alternating_sampler : Sampler := {|
  seed n := [n];
  normal m sd size g := (replicate size m, map Z.succ g);
  binomial n p g :=
    (map (fun i => if Nat.even i then 0%Z else Z.min 1 n) (seq 0 (length p)),
     map Z.succ g)
|}.
Next Obligation. intros. cbn. apply length_replicate. Qed.
Next Obligation. intros. cbn. now rewrite length_map, length_seq. Qed.
Next Obligation.
  intros n p g Hn. cbn. induction (seq 0 (length p)) as [|i l IH]; cbn.
  - constructor.
  - constructor; [|exact IH]. destruct (Nat.even i); lia.
Qed.

(** Two units of a full dataset: the first is observed, the second has
    [R_A = R_Y = 0], so its [A] and [Y] are masked in the partial dataset. *)
Definition two_rows : list row :=
  [ mkRow 1 0 1 2 1 1; mkRow 0 1 3 (-1) 0 0 ].

(** One unit whose outcome is missing and whose covariate makes the odds
    ratio [gamma_0 + gamma_1 * W2] vanish at [gamma_0 = gamma_1 = 1]. *)
Definition zero_odds_rows : list row := [ mkRow 0 0 1 (-1) 1 0 ].

(** A partial dataset in which every [A] and every [Y] is missing. *)
Definition all_missing_rows : list row :=
  [ mkRow (-1) (-1) 1 2 0 0; mkRow (-1) (-1) 3 1 0 0 ].

(** ** What the verbose generator prints *)

(** The number of entries equal to 1, and whether there is one. *)
Definition count_ones (X : list Z) : Z :=
  Z.of_nat (length (filter (fun x => x = 1%Z) X)).

Definition has_one (X : list Z) : bool := existsb (Z.eqb 1) X.

(** The line [label, ones/size]. *)
Definition proportion_line (label : string) (X : list Z) (size : nat)
    : list pyobj :=
  [PyStr label; PyFloat (fdiv (of_int (count_ones X)) (of_int (Z.of_nat size)))].

(** The five lines of a verbose run that generated [rows]. *)
Definition verbose_lines (size : nat) (rows : list row) : list (list pyobj) :=
  [ [PyInt (Z.of_nat size)];
    proportion_line "proportion of A=1:" (map row_A rows) size;
    proportion_line "proportion of Y=1:" (map row_Y rows) size;
    proportion_line "proportion of R_A=1:" (map row_R_A rows) size;
    proportion_line "proportion of R_Y=1:" (map row_R_Y rows) size ].

(** Every one of the four binary columns has an entry equal to 1. *)
Definition all_have_one (rows : list row) : bool :=
  has_one (map row_A rows) && has_one (map row_Y rows) &&
  has_one (map row_R_A rows) && has_one (map row_R_Y rows).

(** The locations of the int64 and of the float64 columns of a frame. *)
Definition int_locs (df : DataFrame) : list loc :=
  [col_A df; col_Y df; col_R_A df; col_R_Y df].

Definition float_locs (df : DataFrame) : list loc := [col_W1 df; col_W2 df].

(** ** Selecting rows, as the main block does *)

(** [l[mask]]: the entries of [l] at the positions where the boolean mask
    is true. *)
Fixpoint select {X} (mask : list bool) (l : list X) : list X :=
  match mask, l with
  | m :: mask', x :: l' =>
      if m then x :: select mask' l' else select mask' l'
  | _, _ => []
  end.

(** [df[df[c] == v]]: the rows of [df] whose column [c] equals [v], as a
    new frame with columns of its own.  The columns of a pandas frame have
    one length, so the mask fits each of them. *)
Definition getitem_where (df : DataFrame) (c : Col.iname) (v : Z)
    : Py DataFrame :=
  key <- get_int (iloc df c) ;;
  let mask := eq_int key v in
  A <- get_int (col_A df) ;;
  Y <- get_int (col_Y df) ;;
  W1 <- get_float (col_W1 df) ;;
  W2 <- get_float (col_W2 df) ;;
  R_A <- get_int (col_R_A df) ;;
  R_Y <- get_int (col_R_Y df) ;;
  pd_DataFrame (select mask A) (select mask Y) (select mask W1)
               (select mask W2) (select mask R_A) (select mask R_Y).

(** [full_data_A = full_data[full_data["A"] == a]] followed by
    [print(np.average(full_data_A["R_A"]))], which the main block runs with
    [a = 0] and with [a = 1]. *)
Definition print_observed_rate (full_data : DataFrame) (a : Z) : Py unit :=
  full_data_A <- getitem_where full_data Col.A a ;;
  R_A <- getitem_i full_data_A Col.R_A ;;
  print [PyFloat (np_average R_A)].

(** [partial_data_A = partial_data[partial_data["R_A"] == 1]] followed by
    [rootsPrediction_A(roots, "A", partial_data_A)]: the value the main
    block prints for the exposure. *)
Definition predict_observed_A (roots : list R) (partial_data : DataFrame)
    : Py value :=
  partial_data_A <- getitem_where partial_data Col.R_A 1 ;;
  rootsPrediction_A roots Col.A partial_data_A.

(** [partial_data_Y = partial_data[partial_data["R_Y"] == 1]] followed by
    [rootsPrediction_Y(roots, "W2", "Y", partial_data_Y)]. *)
Definition predict_observed_Y (roots : list R) (partial_data : DataFrame)
    : Py value :=
  partial_data_Y <- getitem_where partial_data Col.R_Y 1 ;;
  rootsPrediction_Y roots Col.W2 Col.Y partial_data_Y.

(** The rows whose column [c] equals [v]. *)
Definition rows_where (c : Col.iname) (v : Z) (rows : list row) : list row :=
  filter (fun u => isel c u = v) rows.

(** * The same functions in binary64 arithmetic *)

(** The definitions above read a float64 as an exact real; what they prove
    is what does not depend on rounding.  This module embeds the four
    functions a second time, over IEEE 754 binary64 as the Standard
    Library specifies it ([SpecFloat], precision 53, rounding to nearest
    even, signed zeros, overflow to the infinities, gradual underflow), for
    the statements about the numbers they return.  The functions only read
    their dataset, so a frame is here its six columns. *)
Module Binary64.

Definition float64 : Type := spec_float.
Definition prec : Z := 53%Z.
Definition emax : Z := 1024%Z.

Definition fadd : float64 -> float64 -> float64 := SFadd prec emax.
Definition fsub : float64 -> float64 -> float64 := SFsub prec emax.
Definition fmul : float64 -> float64 -> float64 := SFmul prec emax.
Definition fdiv : float64 -> float64 -> float64 := SFdiv prec emax.
Definition fneg : float64 -> float64 := SFopp.

(** Conversion of an int64 to float64 (to nearest even). *)
Definition of_int (n : Z) : float64 := binary_normalize prec emax n 0 false.

Definition NaN : float64 := S754_nan.
Definition PInf : float64 := S754_infinity false.
(** 0.5 *)
Definition half : float64 := S754_finite false 4503599627370496 (-53).

Definition is_zero (x : float64) : bool :=
  match x with S754_zero _ => true | _ => false end.

(** A finite number (a zero included). *)
Definition is_finite (x : float64) : bool :=
  match x with S754_zero _ | S754_finite _ _ _ => true | _ => false end.

(** Neither a zero nor nan: what one can divide a zero by and get a
    zero. *)
Definition usable (x : float64) : bool :=
  match x with S754_zero _ | S754_nan => false | _ => true end.

(** The same number: identical, or two zeros of either sign. *)
Definition same_number (x y : float64) : Prop :=
  x = y \/ (is_zero x = true /\ is_zero y = true).

#[global] Instance float64_eq_dec : EqDecision float64.
Proof. solve_decision. Defined.

(** What the program takes from its libraries: scipy's [expit], the C
    library's [pow] (which numpy's [**] calls on float64 operands) and
    numpy's [add.reduce] (behind [np.average]), with the part of their
    behaviour that does not depend on the implementation: the special
    cases that C99 (Annex F) fixes for [pow], the value of the sigmoid at
    zero and its underflow, and, for the sum, that it propagates nan and
    adds the entries in an order that depends on their number only. *)
Record Numerics : Type := {
  expit : float64 -> float64;
  pow : float64 -> float64 -> float64;
  sum : list float64 -> float64;
  expit_zero : forall s, expit (S754_zero s) = half;
  expit_underflow :
    forall x, SFleb x (of_int (-746)) = true -> expit x = S754_zero false;
  pow_zero : forall x s, pow x (S754_zero s) = of_int 1;
  pow_one : forall y, pow (of_int 1) y = of_int 1;
  pow_id : forall x, pow x (of_int 1) = x;
  pow_pole :
    forall y, SFltb y (S754_zero false) = true ->
              pow (S754_zero false) y = PInf;
  sum_nan : forall l, NaN ∈ l -> sum l = NaN;
  sum_proper :
    forall l l', Forall2 same_number l l' -> same_number (sum l) (sum l')
}.

(** ** Operands and broadcasting *)

Inductive value : Type :=
  | Scalar (x : float64)
  | Series (l : list float64).

Definition promote (v : ivalue) : value :=
  match v with
  | IScalar n => Scalar (of_int n)
  | ISeries l => Series (map of_int l)
  end.

#[local] Coercion promote : ivalue >-> value.

Definition broadcast (op : float64 -> float64 -> float64) (a b : value) : value :=
  match a, b with
  | Scalar x, Scalar y => Scalar (op x y)
  | Scalar x, Series l => Series (map (op x) l)
  | Series l, Scalar y => Series (map (fun x => op x y) l)
  | Series l1, Series l2 => Series (zip_with op l1 l2)
  end.

Definition vadd : value -> value -> value := broadcast fadd.
Definition vsub : value -> value -> value := broadcast fsub.
Definition vmul : value -> value -> value := broadcast fmul.
Definition vdiv : value -> value -> value := broadcast fdiv.

Declare Scope b64_scope.
Delimit Scope b64_scope with b64.
Notation "a + b" := (vadd a b) : b64_scope.
Notation "a - b" := (vsub a b) : b64_scope.
Notation "a * b" := (vmul a b) : b64_scope.
Notation "a / b" := (vdiv a b) : b64_scope.

(** Computations that may raise. *)
Definition bind {A B} (m : result A) (k : A -> result B) : result B :=
  match m with
  | Ok a => k a
  | Raised e => Raised e
  end.

Notation "x <- m ;; k" := (bind m (fun x => k))
  (at level 100, m at next level, right associativity) : b64_scope.

(** A frame: its six columns. *)
Record DataFrame : Type := mkDataFrame {
  col_A : list Z;
  col_Y : list Z;
  col_W1 : list float64;
  col_W2 : list float64;
  col_R_A : list Z;
  col_R_Y : list Z
}.

Definition getitem_f (df : DataFrame) (c : Col.fname) : value :=
  Series (match c with Col.W1 => col_W1 df | Col.W2 => col_W2 df end).

Definition getitem_i (df : DataFrame) (c : Col.iname) : ivalue :=
  ISeries (match c with
           | Col.A => col_A df
           | Col.Y => col_Y df
           | Col.R_A => col_R_A df
           | Col.R_Y => col_R_Y df
           end).

(** [params[i]] as an operand. *)
Definition param (params : list float64) (i : nat) : result value :=
  match index params i with
  | Ok r => Ok (Scalar r)
  | Raised e => Raised e
  end.

Section Code.
Variable numerics : Numerics.
Local Open Scope b64_scope.

(** [a ** e] with an int64 exponent: numpy converts the exponent to
    float64 and calls [pow]. *)
Definition vpow (a : value) (e : ivalue) : value :=
  match a, e with
  | Scalar x, IScalar n => Scalar (pow numerics x (of_int n))
  | Scalar x, ISeries l => Series (map (fun n => pow numerics x (of_int n)) l)
  | Series l, IScalar n => Series (map (fun x => pow numerics x (of_int n)) l)
  | Series l1, ISeries l2 =>
      Series (zip_with (fun x n => pow numerics x (of_int n)) l1 l2)
  end.

Notation "a ** e" := (vpow a e) (at level 30, right associativity) : b64_scope.

Definition vexpit (a : value) : value :=
  match a with
  | Scalar x => Scalar (expit numerics x)
  | Series l => Series (map (expit numerics) l)
  end.

(** np.average without weights: the sum over the number of entries. *)
Definition np_average (a : value) : float64 :=
  match a with
  | Scalar x => x
  | Series l => fdiv (sum numerics l) (of_int (Z.of_nat (length l)))
  end.

Definition shadowIpwFunctional_Y (params : list float64) (W_1 W_2 : Col.fname)
    (R_Y Y : Col.iname) (data : DataFrame) : result (list float64) :=
  params_0 <- param params 0 ;;
  params_1 <- param params 1 ;;
  let data_W_2 := getitem_f data W_2 in
  (* p(R_Y=1 | Y=0) *)
  let pRY_Y_0 := vexpit (params_0 + params_1 * data_W_2) in
  params_2 <- param params 2 ;;
  params_3 <- param params 3 ;;
  let data_Y := getitem_i data Y in
  let pRY_1 :=
    pRY_Y_0 / (pRY_Y_0 + ((params_2 + params_3 * data_W_2) ** data_Y)
                         * (int_ 1 - pRY_Y_0)) in
  let data_W_1 := getitem_f data W_1 in
  let data_R_Y := getitem_i data R_Y in
  let output1 := np_average
    (((data_W_1 * data_W_2) * data_R_Y) / pRY_1 - (data_W_1 * data_W_2)) in
  let output2 := np_average
    (((data_W_1 * data_W_2 + int_ 1) * data_R_Y) / pRY_1
     - (data_W_1 * data_W_2 + int_ 1)) in
  let output3 := np_average
    (((data_W_1 * data_W_2 ** int_ 2) * data_R_Y) / pRY_1
     - (data_W_1 * data_W_2 ** int_ 2)) in
  let output4 := np_average
    (((data_W_1 * data_W_2 ** int_ 2 + int_ 1) * data_R_Y) / pRY_1
     - (data_W_1 * data_W_2 ** int_ 2 + int_ 1)) in
  Ok [output1; output2; output3; output4].

Definition rootsPrediction_Y (roots : list float64) (W_2 : Col.fname)
    (Y : Col.iname) (data : DataFrame) : result value :=
  roots_0 <- param roots 0 ;;
  roots_1 <- param roots 1 ;;
  let data_W_2 := getitem_f data W_2 in
  let pRY_1_Y_0 := vexpit (roots_0 + roots_1 * data_W_2) in
  roots_2 <- param roots 2 ;;
  roots_3 <- param roots 3 ;;
  let data_Y := getitem_i data Y in
  let predictions :=
    pRY_1_Y_0 / (pRY_1_Y_0 + (roots_2 + roots_3 * data_W_2) ** data_Y
                             * (int_ 1 - pRY_1_Y_0)) in
  Ok predictions.

Definition shadowIpwFunctional_A (params : list float64) (W_1 : Col.fname)
    (R_A A : Col.iname) (data : DataFrame) : result (list float64) :=
  params_0 <- param params 0 ;;
  let pRA_A_0 := vexpit params_0 in
  params_1 <- param params 1 ;;
  let data_A := getitem_i data A in
  let pRA_1 :=
    pRA_A_0 / (pRA_A_0 + (params_1 ** data_A) * (int_ 1 - pRA_A_0)) in
  let data_W_1 := getitem_f data W_1 in
  let data_R_A := getitem_i data R_A in
  let output1 := np_average ((data_W_1 * data_R_A) / pRA_1 - data_W_1) in
  let output2 := np_average
    ((data_W_1 ** int_ 2 * data_R_A) / pRA_1 - data_W_1 ** int_ 2) in
  Ok [output1; output2].

Definition rootsPrediction_A (roots : list float64) (A : Col.iname)
    (data : DataFrame) : result value :=
  roots_0 <- param roots 0 ;;
  let pRA_A_0 := vexpit roots_0 in
  roots_1 <- param roots 1 ;;
  let data_A := getitem_i data A in
  let predictions :=
    pRA_A_0 / (pRA_A_0 + roots_1 ** data_A * (int_ 1 - pRA_A_0)) in
  Ok predictions.

End Code.


(** ** Datasets as lists of units *)

Record row : Type := mkRow {
  row_A : Z;
  row_Y : Z;
  row_W1 : float64;
  row_W2 : float64;
  row_R_A : Z;
  row_R_Y : Z
}.

(** The frame whose columns hold, row by row, the fields of [rows]. *)
Definition frame_of (rows : list row) : DataFrame :=
  mkDataFrame (map row_A rows) (map row_Y rows) (map row_W1 rows)
              (map row_W2 rows) (map row_R_A rows) (map row_R_Y rows).

(** The unit as a partial dataset shows it when the number [k] stands for
    a missing value. *)
Definition mask_with (k : Z) (u : row) : row :=
  mkRow (if Z.eqb (row_R_A u) 0 then k else row_A u)
        (if Z.eqb (row_R_Y u) 0 then k else row_Y u)
        (row_W1 u) (row_W2 u) (row_R_A u) (row_R_Y u).

(** ** The estimating equations row by row *)

Section Rowwise.
Variable numerics : Numerics.

(** [p1 = p0 / (p0 + odds^x * (1 - p0))] *)
Definition p1 (p0 odds : float64) (x : Z) : float64 :=
  fdiv p0 (fadd p0 (fmul (pow numerics odds (of_int x)) (fsub (of_int 1) p0))).

(** The shadow-IPW summand [h * R / p - h]. *)
Definition ipw (h : float64) (r : Z) (p : float64) : float64 :=
  fsub (fdiv (fmul h (of_int r)) p) h.

Definition p1_A (alpha_0 gamma : float64) (u : row) : float64 :=
  p1 (expit numerics alpha_0) gamma (row_A u).

Definition p1_Y (alpha_0 alpha_1 gamma_0 gamma_1 : float64) (u : row) : float64 :=
  p1 (expit numerics (fadd alpha_0 (fmul alpha_1 (row_W2 u))))
     (fadd gamma_0 (fmul gamma_1 (row_W2 u))) (row_Y u).

Definition average (f : row -> float64) (rows : list row) : float64 :=
  fdiv (sum numerics (map f rows)) (of_int (Z.of_nat (length rows))).

(** The instruments [W1], [W1^2] of the exposure equations and [W1*W2],
    [W1*W2 + 1], [W1*W2^2], [W1*W2^2 + 1] of the outcome equations. *)
Definition instruments_A : list (row -> float64) :=
  [ row_W1; fun u => pow numerics (row_W1 u) (of_int 2) ].

Definition instruments_Y : list (row -> float64) :=
  [ fun u => fmul (row_W1 u) (row_W2 u);
    fun u => fadd (fmul (row_W1 u) (row_W2 u)) (of_int 1);
    fun u => fmul (row_W1 u) (pow numerics (row_W2 u) (of_int 2));
    fun u => fadd (fmul (row_W1 u) (pow numerics (row_W2 u) (of_int 2)))
                  (of_int 1) ].

Definition residuals_A (alpha_0 gamma : float64) (rows : list row)
    : list float64 :=
  map (fun h => average (fun u => ipw (h u) (row_R_A u) (p1_A alpha_0 gamma u))
                        rows)
      instruments_A.

Definition residuals_Y (alpha_0 alpha_1 gamma_0 gamma_1 : float64)
    (rows : list row) : list float64 :=
  map (fun h => average (fun u => ipw (h u) (row_R_Y u)
                                      (p1_Y alpha_0 alpha_1 gamma_0 gamma_1 u))
                        rows)
      instruments_Y.

(** The summand of a row with the masked rows written out: [- h] when the
    row is masked ([r = 0]), the shadow-IPW summand otherwise. *)
Definition masked_ipw (h : float64) (r : Z) (p : float64) : float64 :=
  if Z.eqb r 0 then fneg h else ipw h r p.

Definition masked_residuals_A (alpha_0 gamma : float64) (rows : list row)
    : list float64 :=
  map (fun h => average (fun u => masked_ipw (h u) (row_R_A u)
                                             (p1_A alpha_0 gamma u)) rows)
      instruments_A.

Definition masked_residuals_Y (alpha_0 alpha_1 gamma_0 gamma_1 : float64)
    (rows : list row) : list float64 :=
  map (fun h => average (fun u => masked_ipw (h u) (row_R_Y u)
                                             (p1_Y alpha_0 alpha_1 gamma_0 gamma_1 u))
                        rows)
      instruments_Y.

(** At every row whose [A] (resp. [Y]) is missing, the instruments are
    finite numbers and the propensity computed from the number [k] that
    stands for the missing value is neither zero nor nan. *)
Definition masked_rows_usable_A (alpha_0 gamma : float64) (k : Z)
    (rows : list row) : Prop :=
  Forall (fun u =>
            row_R_A u = 0%Z ->
            Forall (fun h => is_finite (h u) = true) instruments_A /\
            usable (p1_A alpha_0 gamma (mask_with k u)) = true)
         rows.

Definition masked_rows_usable_Y (alpha_0 alpha_1 gamma_0 gamma_1 : float64)
    (k : Z) (rows : list row) : Prop :=
  Forall (fun u =>
            row_R_Y u = 0%Z ->
            Forall (fun h => is_finite (h u) = true) instruments_Y /\
            usable (p1_Y alpha_0 alpha_1 gamma_0 gamma_1 (mask_with k u)) = true)
         rows.

End Rowwise.

(** ** Libraries to run the definitions on *)

(** Left-to-right summation from 0.0, as numpy adds an array of fewer than
    eight entries. *)
Definition sequential_sum (l : list float64) : float64 :=
  foldl fadd (S754_zero false) l.

(** A sigmoid and a power that meet the contract of [Numerics] and are
    otherwise crude: the sigmoid is a step function, and the power knows
    the square and answers nan wherever else C99 does not fix its value. *)
Definition step_expit (x : float64) : float64 :=
  match x with
  | S754_nan => S754_nan
  | S754_zero _ => half
  | S754_infinity s => if s then S754_zero false else of_int 1
  | S754_finite s _ _ =>
      if SFleb x (of_int (-746)) then S754_zero false
      else if SFleb (of_int 746) x then of_int 1
      else half
  end.

Definition special_pow (x y : float64) : float64 :=
  if is_zero y then of_int 1
  else if bool_decide (x = of_int 1) then of_int 1
  else if bool_decide (y = of_int 1) then x
  else if bool_decide (y = of_int 2) then fmul x x
  else if bool_decide (x = S754_zero false) && SFltb y (S754_zero false)
       then PInf
  else S754_nan.

Lemma fadd_proper x x' y y' :
  same_number x x' -> same_number y y' -> same_number (fadd x y) (fadd x' y').
Proof.
  intros [->|[Hx Hx']] [->|[Hy Hy']].
  - now left.
  - destruct y as [sy| | |]; try discriminate.
    destruct y' as [sy'| | |]; try discriminate.
    destruct x' as [[]| | |]; destruct sy, sy'; unfold fadd; cbn;
      first [now left | now right].
  - destruct x as [sx| | |]; try discriminate.
    destruct x' as [sx'| | |]; try discriminate.
    destruct y' as [[]| | |]; destruct sx, sx'; unfold fadd; cbn;
      first [now left | now right].
  - destruct x as [[]| | |], x' as [[]| | |], y as [[]| | |], y' as [[]| | |];
      try discriminate; unfold fadd; cbn; first [now left | now right].
Qed.

Lemma sequential_sum_nan l : NaN ∈ l -> sequential_sum l = NaN.
Proof.
  unfold sequential_sum. generalize (S754_zero false).
  assert (Hnan : forall l, foldl fadd NaN l = NaN).
  { clear. induction l as [|x l IH]; [reflexivity|]. exact IH. }
  induction l as [|x l IH]; intros acc H.
  - now apply elem_of_nil in H.
  - cbn [foldl]. apply elem_of_cons in H as [<- | H].
    + replace (fadd acc NaN) with NaN by now destruct acc. apply Hnan.
    + now apply IH.
Qed.

Lemma sequential_sum_proper l l' :
  Forall2 same_number l l' ->
  same_number (sequential_sum l) (sequential_sum l').
Proof.
  unfold sequential_sum. intros H.
  assert (Hacc : same_number (S754_zero false) (S754_zero false)) by now left.
  revert Hacc. generalize (S754_zero false) at 1 3.
  generalize (S754_zero false).
  induction H as [|x x' l l' Hx _ IH]; intros a a' Ha; [exact Ha|].
  cbn [foldl]. apply IH. now apply fadd_proper.
Qed.

(** The three together. *)
Program Definition reference : Numerics := {|
  expit := step_expit;
  pow := special_pow;
  sum := sequential_sum
|}.
Next Obligation. reflexivity. Qed.
Next Obligation.
  intros x H. destruct x as [[]|[]| |s m e]; try discriminate; try reflexivity.
  unfold step_expit. now rewrite H.
Qed.
Next Obligation. reflexivity. Qed.
Next Obligation.
  intros y. unfold special_pow. destruct (is_zero y); [reflexivity|].
  now rewrite bool_decide_eq_true_2.
Qed.
Next Obligation.
  intros x. unfold special_pow. cbn [is_zero of_int].
  destruct (bool_decide (x = of_int 1)) eqn:E.
  - now apply bool_decide_eq_true_1 in E.
  - now rewrite bool_decide_eq_true_2.
Qed.
Next Obligation.
  intros y H. unfold special_pow.
  destruct y as [sy|sy| |sy m e]; try discriminate; cbn [is_zero].
  all: rewrite (bool_decide_eq_false_2 (S754_zero false = of_int 1))
    by discriminate.
  all: destruct (bool_decide (_ = of_int 1)) eqn:E;
    [apply bool_decide_eq_true_1 in E; rewrite E in H; discriminate H|].
  all: destruct (bool_decide (_ = of_int 2)) eqn:E2;
    [apply bool_decide_eq_true_1 in E2; rewrite E2 in H; discriminate H|].
  all: rewrite bool_decide_eq_true_2 by reflexivity.
  all: now rewrite H.
Qed.
Next Obligation. exact sequential_sum_nan. Qed.
Next Obligation. exact sequential_sum_proper. Qed.

(** Two units, the first with both [A] and [Y] missing. *)
Definition two_rows : list row :=
  [ mkRow 1 0 (of_int 3) (of_int 2) 0 0; mkRow 0 1 (of_int 1) (of_int (-1)) 1 1 ].

(** One unit whose [A] is missing, as the partial dataset shows it. *)
Definition masked_row : list row :=
  [ mkRow (-1) (-1) (of_int 1) (of_int 1) 0 0 ].


End Binary64.

(** * Properties *)

(** ** Reading a dataset *)

Lemma getitem_f_represents s df rows c :
  represents s df rows ->
  getitem_f df c s = (Ok (Series (map (fun u => Fin (fsel c u)) rows)), s).
Proof.
  intros [Hf _]. unfold getitem_f, bind, get_float, read_float, ret.
  now rewrite Hf.
Qed.

Lemma getitem_i_represents s df rows c :
  represents s df rows ->
  getitem_i df c s = (Ok (ISeries (map (isel c) rows)), s).
Proof.
  intros [_ Hi]. unfold getitem_i, bind, get_int, read_int, ret.
  now rewrite Hi.
Qed.

(** A frame represents at most one list of units. *)
Lemma represents_unique s df rows1 rows2 :
  represents s df rows1 -> represents s df rows2 -> rows1 = rows2.
Proof.
  intros [Hf1 Hi1] [Hf2 Hi2].
  assert (Hf : forall c, map (fun u => Fin (fsel c u)) rows1
                         = map (fun u => Fin (fsel c u)) rows2)
    by (intros c; specialize (Hf1 c); specialize (Hf2 c); congruence).
  assert (Hi : forall c, map (isel c) rows1 = map (isel c) rows2)
    by (intros c; specialize (Hi1 c); specialize (Hi2 c); congruence).
  clear Hf1 Hf2 Hi1 Hi2. revert rows2 Hf Hi.
  induction rows1 as [|u1 rows1 IH]; intros [|u2 rows2] Hf Hi;
    try reflexivity; try (specialize (Hi Col.A); discriminate).
  f_equal.
  - pose proof (Hf Col.W1) as HW1. pose proof (Hf Col.W2) as HW2.
    pose proof (Hi Col.A) as HA. pose proof (Hi Col.Y) as HY.
    pose proof (Hi Col.R_A) as HRA. pose proof (Hi Col.R_Y) as HRY.
    cbn in HW1, HW2, HA, HY, HRA, HRY.
    destruct u1, u2. cbn in *. congruence.
  - apply IH; intros c; [specialize (Hf c)|specialize (Hi c)];
      cbn in *; congruence.
Qed.

(** Vectorised expressions over the columns of one dataset are maps over
    its rows. *)
Lemma zip_with_map_map {A B C D} (f : B -> C -> D) (g : A -> B) (h : A -> C) l :
  zip_with f (map g l) (map h l) = map (fun x => f (g x) (h x)) l.
Proof. induction l; simpl; congruence. Qed.

Lemma map_map_fuse {A B C} (f : B -> C) (g : A -> B) (l : list A) :
  map f (map g l) = map (fun x => f (g x)) l.
Proof. induction l; simpl; congruence. Qed.

Ltac vectorise :=
  cbn [vadd vsub vmul vdiv vpow vexpit broadcast promote float_ int_ np_average];
  repeat (rewrite ?zip_with_map_map, ?map_map_fuse, ?length_map).

Lemma bind_run {A B} (m : Py A) (k : A -> Py B) s a s' :
  m s = (Ok a, s') -> bind m k s = k a s'.
Proof. unfold bind. now intros ->. Qed.

Lemma bind_raise {A B} (m : Py A) (k : A -> Py B) s e s' :
  m s = (Raised e, s') -> bind m k s = (Raised e, s').
Proof. unfold bind. now intros ->. Qed.

Lemma param_run params i r s :
  params !! i = Some r -> param params i s = (Ok (float_ r), s).
Proof. unfold param, bind, lift, index, ret. now intros ->. Qed.

Ltac py_read H :=
  repeat (erewrite bind_run
            by first [ apply (getitem_i_represents _ _ _ _ H)
                     | apply (getitem_f_represents _ _ _ _ H)
                     | apply param_run; reflexivity ];
          cbv beta zeta).

(** *** What the four functions compute on a represented dataset *)

Lemma shadowIpwFunctional_A_run s data rows alpha_0 gamma :
  represents s data rows ->
  shadowIpwFunctional_A [alpha_0; gamma] Col.W1 Col.R_A Col.A data s
  = (Ok (Spec.residuals_A alpha_0 gamma rows), s).
Proof.
  intros H. unfold shadowIpwFunctional_A. py_read H.
  vectorise. reflexivity.
Qed.

Lemma shadowIpwFunctional_Y_run s data rows alpha_0 alpha_1 gamma_0 gamma_1 :
  represents s data rows ->
  shadowIpwFunctional_Y [alpha_0; alpha_1; gamma_0; gamma_1]
    Col.W1 Col.W2 Col.R_Y Col.Y data s
  = (Ok (Spec.residuals_Y alpha_0 alpha_1 gamma_0 gamma_1 rows), s).
Proof.
  intros H. unfold shadowIpwFunctional_Y. py_read H.
  vectorise. reflexivity.
Qed.

Lemma rootsPrediction_A_run s data rows alpha_0 gamma :
  represents s data rows ->
  rootsPrediction_A [alpha_0; gamma] Col.A data s
  = (Ok (Series (map (Spec.p1_A alpha_0 gamma) rows)), s).
Proof.
  intros H. unfold rootsPrediction_A. py_read H.
  vectorise. reflexivity.
Qed.

Lemma rootsPrediction_Y_run s data rows alpha_0 alpha_1 gamma_0 gamma_1 :
  represents s data rows ->
  rootsPrediction_Y [alpha_0; alpha_1; gamma_0; gamma_1] Col.W2 Col.Y data s
  = (Ok (Series (map (Spec.p1_Y alpha_0 alpha_1 gamma_0 gamma_1) rows)), s).
Proof.
  intros H. unfold rootsPrediction_Y. py_read H.
  vectorise. reflexivity.
Qed.

(** ** The object store *)

Lemma alter_end {A} (f : A -> A) (l : list A) (x : A) :
  alter f (length l) (l ++ [x]) = l ++ [f x].
Proof.
  replace (length l) with (length l + 0)%nat by lia.
  now rewrite alter_app_r.
Qed.

Lemma lookup_end {A} (l : list A) (x : A) : (l ++ [x]) !! length l = Some x.
Proof. apply list_lookup_middle. reflexivity. Qed.

Lemma lookup_old {A} (l : list A) (x : A) a y :
  l !! a = Some y -> (l ++ [x]) !! a = Some y.
Proof. intros H. now apply lookup_app_l_Some. Qed.

Lemma lookup_app_add {A} (l1 l2 : list A) k :
  (l1 ++ l2) !! (length l1 + k)%nat = l2 !! k.
Proof. rewrite lookup_app_r by lia. f_equal. lia. Qed.

Lemma lookup_app_0 {A} (l1 l2 : list A) : (l1 ++ l2) !! length l1 = l2 !! 0%nat.
Proof. rewrite <- (lookup_app_add l1 l2 0). f_equal. lia. Qed.

Lemma get_int_run a l i f g o :
  i !! a = Some l -> get_int a (State i f g o) = (Ok l, State i f g o).
Proof. unfold get_int, read_int. cbn [ints]. now intros ->. Qed.

Lemma copy_run a l i f g o :
  i !! a = Some l ->
  copy a (State i f g o) = (Ok (length i), State (i ++ [l]) f g o).
Proof.
  intros H. unfold copy.
  now rewrite (bind_run _ _ _ _ _ (get_int_run _ _ _ _ _ _ H)).
Qed.

Lemma setitem_mask_run a mask v i f g o :
  setitem_mask a mask v (State i f g o)
  = (Ok tt, State (alter (assign_where mask v) a i) f g o).
Proof. reflexivity. Qed.

Lemma pd_DataFrame_run A Y W1 W2 R_A R_Y i f g o :
  pd_DataFrame A Y W1 W2 R_A R_Y (State i f g o) =
  (Ok (frame_at (length i) (length f)),
   State (i ++ [A; Y; R_A; R_Y]) (f ++ [W1; W2]) g o).
Proof.
  unfold pd_DataFrame, bind, new_int_series, new_float_series, ret, frame_at.
  cbn [ints floats rng stdout].
  rewrite !length_app. cbn [length].
  rewrite <- !app_assoc. cbn [app].
  now rewrite <- !Nat.add_assoc.
Qed.

Lemma derive_partial_data_run full W1 W2 R_A R_Y i f g o cA cY cRA cRY :
  i !! col_A full = Some cA -> i !! col_R_A full = Some cRA ->
  i !! col_Y full = Some cY -> i !! col_R_Y full = Some cRY ->
  derive_partial_data full W1 W2 R_A R_Y (State i f g o) =
  (Ok (frame_at (length i + 2) (length f)),
   State (i ++ [assign_where (eq_int cRA 0) (-1) cA;
                assign_where (eq_int cRY 0) (-1) cY;
                assign_where (eq_int cRA 0) (-1) cA;
                assign_where (eq_int cRY 0) (-1) cY; R_A; R_Y])
         (f ++ [W1; W2]) g o).
Proof.
  intros HA HRA HY HRY. unfold derive_partial_data. cbn [iloc].
  rewrite (bind_run _ _ _ _ _ (copy_run _ _ _ _ _ _ HA)).
  rewrite (bind_run _ _ _ _ _ (get_int_run _ _ _ _ _ _ (lookup_old _ _ _ _ HRA))).
  rewrite (bind_run _ _ _ _ _ (setitem_mask_run _ _ _ _ _ _ _)).
  rewrite alter_end.
  rewrite (bind_run _ _ _ _ _ (copy_run _ _ _ _ _ _ (lookup_old _ _ _ _ HY))).
  rewrite (bind_run _ _ _ _ _
             (get_int_run _ _ _ _ _ _ (lookup_old _ _ _ _ (lookup_old _ _ _ _ HRY)))).
  rewrite (bind_run _ _ _ _ _ (setitem_mask_run _ _ _ _ _ _ _)).
  rewrite alter_end.
  rewrite (bind_run _ _ _ _ _
             (get_int_run _ _ _ _ _ _ (lookup_old _ _ _ _ (lookup_end _ _)))).
  rewrite (bind_run _ _ _ _ _ (get_int_run _ _ _ _ _ _ (lookup_end _ _))).
  rewrite pd_DataFrame_run.
  rewrite !length_app. cbn [length].
  rewrite <- !app_assoc. cbn [app].
  now rewrite <- !Nat.add_assoc.
Qed.

Lemma generated_lookups {A} (i : list A) a b c d :
  (i ++ [a; b; c; d]) !! length i = Some a /\
  (i ++ [a; b; c; d]) !! (length i + 1)%nat = Some b /\
  (i ++ [a; b; c; d]) !! (length i + 2)%nat = Some c /\
  (i ++ [a; b; c; d]) !! (length i + 3)%nat = Some d.
Proof. rewrite lookup_app_0, !lookup_app_add. now cbn. Qed.

(** ** The sigmoid *)

Lemma expit_range x : 0 < expit x < 1.
Proof.
  unfold expit. pose proof (exp_pos (- x)) as He.
  split.
  - apply Rdiv_lt_0_compat; lra.
  - apply (Rmult_lt_reg_r (1 + exp (- x))); [lra|].
    unfold Rdiv. rewrite Rmult_assoc, Rinv_l; lra.
Qed.

(** ** Lists *)

Lemma zip_with_map_l {A A' B C} (f : A' -> B -> C) (g : A -> A') l1 l2 :
  zip_with f (map g l1) l2 = zip_with (fun x y => f (g x) y) l1 l2.
Proof. revert l2; induction l1; intros [|? ?]; simpl; congruence. Qed.

Lemma zip_with_map_r {A B B' C} (f : A -> B' -> C) (g : B -> B') l1 l2 :
  zip_with f l1 (map g l2) = zip_with (fun x y => f x (g y)) l1 l2.
Proof. revert l2; induction l1; intros [|? ?]; simpl; congruence. Qed.

Lemma map_zip_with {A B C D} (k : C -> D) (f : A -> B -> C) l1 l2 :
  map k (zip_with f l1 l2) = zip_with (fun x y => k (f x y)) l1 l2.
Proof. revert l2; induction l1; intros [|? ?]; simpl; congruence. Qed.

Lemma zip_with_ext_Forall_l {A B C} (P : A -> Prop) (f g : A -> B -> C) l1 l2 :
  Forall P l1 -> (forall x y, P x -> f x y = g x y) ->
  zip_with f l1 l2 = zip_with g l1 l2.
Proof.
  intros Hl Hfg. revert l2.
  induction Hl as [|x l1 Hx _ IH]; intros [|y l2]; simpl; try reflexivity.
  now rewrite Hfg, IH.
Qed.

Lemma map_ext_Forall' {A B} (P : A -> Prop) (f g : A -> B) l :
  Forall P l -> (forall x, P x -> f x = g x) -> map f l = map g l.
Proof.
  intros Hl Hfg. induction Hl as [|x l Hx _ IH]; simpl; [reflexivity|].
  now rewrite Hfg, IH.
Qed.

Lemma mapM_probability rs :
  Forall (fun r => 0 <= r <= 1) rs -> mapM probability (map Fin rs) = Some rs.
Proof.
  intros H. apply mapM_Some. induction H as [|r rs Hr _ IH]; simpl.
  - constructor.
  - constructor; [|exact IH]. unfold probability.
    destruct (Rle_dec 0 r); [|lra]. destruct (Rle_dec r 1); [reflexivity|lra].
Qed.

Lemma Forall_zip_with_all {A B C} (P : C -> Prop) (f : A -> B -> C) l1 l2 :
  (forall x y, P (f x y)) -> Forall P (zip_with f l1 l2).
Proof.
  intros H. revert l2. induction l1; intros [|? ?]; simpl; constructor; auto.
Qed.

Lemma Forall_map_all {A B} (P : B -> Prop) (f : A -> B) l :
  (forall x, P (f x)) -> Forall P (map f l).
Proof. intros H. induction l; simpl; constructor; auto. Qed.

Lemma expit_unit x : 0 <= expit x <= 1.
Proof. pose proof (expit_range x). lra. Qed.

Ltac vnorm :=
  cbn [vadd vsub vmul vdiv vpow vexpit broadcast promote float_ int_ imul column];
  rewrite ?map_zip_with, ?zip_with_map_l, ?zip_with_map_r, ?map_map_fuse.

Lemma map_nth_seq {A} (l : list A) d n :
  length l = n -> map (fun i => nth i l d) (seq 0 n) = l.
Proof.
  intros <-. induction l as [|x l IH]; simpl; [reflexivity|].
  f_equal. rewrite <- seq_shift, map_map_fuse. exact IH.
Qed.

Lemma assign_where_mask_A rows :
  assign_where (eq_int (map row_R_A rows) 0) (-1) (map row_A rows)
  = map row_A (map Spec.mask rows).
Proof.
  unfold assign_where, eq_int.
  now rewrite !map_map_fuse, zip_with_map_map.
Qed.

Lemma assign_where_mask_Y rows :
  assign_where (eq_int (map row_R_Y rows) 0) (-1) (map row_Y rows)
  = map row_Y (map Spec.mask rows).
Proof.
  unfold assign_where, eq_int.
  now rewrite !map_map_fuse, zip_with_map_map.
Qed.

Lemma int_columns_mask rows :
  int_columns (map Spec.mask rows)
  = [map row_A (map Spec.mask rows); map row_Y (map Spec.mask rows);
     map row_R_A rows; map row_R_Y rows].
Proof. unfold int_columns. now rewrite !map_map_fuse. Qed.

Lemma float_columns_mask rows :
  float_columns (map Spec.mask rows) = float_columns rows.
Proof. unfold float_columns. now rewrite !map_map_fuse. Qed.

Lemma rows_of_columns size A Y W1 W2 R_A R_Y :
  length A = size -> length Y = size -> length W1 = size ->
  length W2 = size -> length R_A = size -> length R_Y = size ->
  int_columns (Spec.rows_of size A Y W1 W2 R_A R_Y) = [A; Y; R_A; R_Y] /\
  float_columns (Spec.rows_of size A Y W1 W2 R_A R_Y) = [map Fin W1; map Fin W2].
Proof.
  intros HA HY HW1 HW2 HRA HRY.
  unfold int_columns, float_columns, Spec.rows_of.
  rewrite !map_map_fuse. cbn [row_A row_Y row_W1 row_W2 row_R_A row_R_Y].
  rewrite <- !(map_map_fuse Fin (fun i => nth i _ 0)).
  now rewrite !map_nth_seq by assumption.
Qed.


(** ** Running the generator *)

Section Generator.
Variable np_random : Sampler.

Lemma np_random_normal_run size i f g o :
  np_random_normal np_random 0 1 size (State i f g o) =
  (Ok (map Fin (normal np_random 0 1 size g).1),
   State i f (normal np_random 0 1 size g).2 o).
Proof.
  unfold np_random_normal. destruct (Rlt_dec 1 0); [lra|].
  cbn [ints floats rng stdout]. now destruct (normal np_random 0 1 size g).
Qed.

Lemma np_random_binomial_run n rs size i f g o :
  Forall (fun r => 0 <= r <= 1) rs -> length rs = size ->
  np_random_binomial np_random n (Series (map Fin rs)) size (State i f g o) =
  (Ok (binomial np_random n rs g).1,
   State i f (binomial np_random n rs g).2 o).
Proof.
  intros Hp Hlen. unfold np_random_binomial.
  rewrite (mapM_probability _ Hp).
  apply Nat.eqb_eq in Hlen. rewrite Hlen.
  cbn [ints floats rng stdout]. now destruct (binomial np_random n rs g).
Qed.

(** A report either prints one line or raises; it touches nothing else. *)
Lemma report_run verbose label X size i f g o :
  (exists o', when verbose (print_proportion label X size) (State i f g o)
              = (Ok tt, State i f g o'))
  \/ (verbose = true /\
      exists e, when verbose (print_proportion label X size) (State i f g o)
                = (Raised e, State i f g o)).
Proof.
  destruct verbose; cbn [when]; [|left; now exists o].
  unfold print_proportion, bind, lift.
  destruct (np_bincount X) as [counts|e]; [|right; eauto].
  destruct (index counts 1) as [ones|e]; [|right; eauto].
  left. eexists. reflexivity.
Qed.

Lemma when_print_run verbose items i f g o :
  exists o', when verbose (print items) (State i f g o) = (Ok tt, State i f g o').
Proof. destruct verbose; eexists; reflexivity. Qed.

Lemma wrap64_double k : (0 <= k <= 1)%Z -> IZR (wrap64 (2 * k)) = 2 * IZR k.
Proof.
  intros Hk. assert (k = 0 \/ k = 1)%Z as [-> | ->] by lia;
    vm_compute wrap64; lra.
Qed.

Ltac report_step verbose label X :=
  match goal with
  | |- context [bind (when verbose (print_proportion label X ?size)) _
                     (State ?i ?f ?g ?o)] =>
      let E := fresh "E" in
      destruct (report_run verbose label X size i f g o)
        as [[? E] | [-> [? E]]];
      [ rewrite (bind_run _ _ _ _ _ E)
      | right; split; [reflexivity|];
        rewrite (bind_raise _ _ _ _ _ E); eauto ]
  end.

Lemma generateData_run size verbose i f g o rows g' :
  Spec.generate np_random size g = (rows, g') ->
  (exists o',
      generateData np_random size verbose (State i f g o) =
      (Ok (frame_at (length i) (length f),
           frame_at (length i + 6) (length f + 2)),
       State (i ++ int_columns rows
                ++ [map row_A (map Spec.mask rows);
                    map row_Y (map Spec.mask rows)]
                ++ int_columns (map Spec.mask rows))
             (f ++ float_columns rows ++ float_columns rows) g' o'))
  \/ (verbose = true /\
      exists e s', generateData np_random size verbose (State i f g o)
                   = (Raised e, s')).
Proof.
  unfold Spec.generate.
  pose proof (normal_length np_random 0 1 size g) as LW1.
  destruct (normal np_random 0 1 size g) as [W1 g1] eqn:E1.
  pose proof (normal_length np_random 0 1 size g1) as LN.
  destruct (normal np_random 0 1 size g1) as [N g2] eqn:E2.
  cbn [fst] in LW1, LN.
  set (W2 := zip_with (fun n w1 => n + 1.4 * w1) N W1).
  assert (LW2 : length W2 = size)
    by (unfold W2; rewrite length_zip_with; lia).
  set (pA := zip_with (fun w1 w2 => expit (w1 + w2)) W1 W2).
  pose proof (binomial_length np_random 1 pA g2) as LA.
  pose proof (binomial_range np_random 1 pA g2 ltac:(lia)) as RA.
  destruct (binomial np_random 1 pA g2) as [A g3] eqn:E3.
  set (pY := zip_with (fun w2 a => expit (w2 + IZR a - 0.4)) W2 A).
  pose proof (binomial_length np_random 1 pY g3) as LY.
  pose proof (binomial_range np_random 1 pY g3 ltac:(lia)) as RY.
  destruct (binomial np_random 1 pY g3) as [Y g4] eqn:E4.
  set (pRA := map (fun a => expit (2 * IZR a + 0.3)) A).
  pose proof (binomial_length np_random 1 pRA g4) as LRA.
  destruct (binomial np_random 1 pRA g4) as [R_A g5] eqn:E5.
  set (pRY := zip_with (fun y w2 => expit (2 * IZR y + w2 + 0.8)) Y W2).
  pose proof (binomial_length np_random 1 pRY g5) as LRY.
  destruct (binomial np_random 1 pRY g5) as [R_Y g6] eqn:E6.
  cbn [fst] in *.
  assert (LpA : length pA = size) by (unfold pA; rewrite length_zip_with; lia).
  assert (LpY : length pY = size) by (unfold pY; rewrite length_zip_with; lia).
  assert (LpRA : length pRA = size) by (unfold pRA; rewrite length_map; lia).
  assert (LpRY : length pRY = size) by (unfold pRY; rewrite length_zip_with; lia).
  assert (VpA : Forall (fun r => 0 <= r <= 1) pA)
    by (apply Forall_zip_with_all; intros; apply expit_unit).
  assert (VpY : Forall (fun r => 0 <= r <= 1) pY)
    by (apply Forall_zip_with_all; intros; apply expit_unit).
  assert (VpRA : Forall (fun r => 0 <= r <= 1) pRA)
    by (apply Forall_map_all; intros; apply expit_unit).
  assert (VpRY : Forall (fun r => 0 <= r <= 1) pRY)
    by (apply Forall_zip_with_all; intros; apply expit_unit).
  intros [= <- <-].
  unfold generateData.
  destruct (when_print_run verbose [PyInt (Z.of_nat size)] i f g o) as [o0 E0].
  rewrite (bind_run _ _ _ _ _ E0).
  rewrite (bind_run _ _ _ _ _ (np_random_normal_run _ _ _ _ _)), E1.
  cbn [fst snd].
  rewrite (bind_run _ _ _ _ _ (np_random_normal_run _ _ _ _ _)), E2.
  cbn [fst snd]. cbv zeta.
  assert (HW2 : (Series (map Fin N) + float_ 1.4 * Series (map Fin W1))%np
                = Series (map Fin W2)) by (unfold W2; vnorm; reflexivity).
  rewrite HW2. clear HW2.
  assert (HpA : vexpit (Series (map Fin W1) + Series (map Fin W2))
                = Series (map Fin pA)) by (unfold pA; vnorm; reflexivity).
  rewrite HpA. clear HpA.
  rewrite (bind_run _ _ _ _ _
             (np_random_binomial_run _ _ _ _ _ _ _ VpA LpA)), E3.
  cbn [fst snd].
  report_step verbose "proportion of A=1:" A.
  assert (HpY : vexpit (Series (map Fin W2) + ISeries A - float_ 0.4)
                = Series (map Fin pY)) by (unfold pY; vnorm; reflexivity).
  rewrite HpY. clear HpY.
  rewrite (bind_run _ _ _ _ _
             (np_random_binomial_run _ _ _ _ _ _ _ VpY LpY)), E4.
  cbn [fst snd].
  report_step verbose "proportion of Y=1:" Y.
  assert (HpRA : vexpit (imul (int_ 2) (ISeries A) + float_ 0.3)
                 = Series (map Fin pRA)).
  { unfold pRA. vnorm. f_equal. apply (map_ext_Forall' _ _ _ _ RA).
    intros k Hk. cbn. now rewrite (wrap64_double _ Hk). }
  rewrite HpRA. clear HpRA.
  rewrite (bind_run _ _ _ _ _
             (np_random_binomial_run _ _ _ _ _ _ _ VpRA LpRA)), E5.
  cbn [fst snd].
  report_step verbose "proportion of R_A=1:" R_A.
  assert (HpRY : vexpit (imul (int_ 2) (ISeries Y) + Series (map Fin W2)
                         + float_ 0.8)
                 = Series (map Fin pRY)).
  { unfold pRY. vnorm. f_equal. apply (zip_with_ext_Forall_l _ _ _ _ _ RY).
    intros k w Hk. cbn. now rewrite (wrap64_double _ Hk). }
  rewrite HpRY. clear HpRY.
  rewrite (bind_run _ _ _ _ _
             (np_random_binomial_run _ _ _ _ _ _ _ VpRY LpRY)), E6.
  cbn [fst snd].
  report_step verbose "proportion of R_Y=1:" R_Y.
  left. eexists.
  rewrite (bind_run _ _ _ _ _ (pd_DataFrame_run _ _ _ _ _ _ _ _ _ _)).
  cbn [column].
  destruct (generated_lookups i A Y R_A R_Y) as (HlA & HlY & HlRA & HlRY).
  rewrite (bind_run _ _ _ _ _
             (derive_partial_data_run (frame_at (length i) (length f))
                _ _ _ _ _ _ _ _ _ _ _ _ HlA HlRA HlY HlRY)).
  destruct (rows_of_columns size A Y W1 W2 R_A R_Y) as [Hi Hf]; try lia.
  set (rows := Spec.rows_of size A Y W1 W2 R_A R_Y) in *.
  rewrite int_columns_mask, <- assign_where_mask_A, <- assign_where_mask_Y.
  rewrite Hf. rewrite Hi.
  injection Hi as -> -> -> ->.
  unfold ret. rewrite !length_app. cbn [length].
  rewrite <- !app_assoc. cbn [app].
  now rewrite <- Nat.add_assoc.
Qed.

Lemma represents_frame_at i f g o rows rest_i rest_f :
  represents (State (i ++ int_columns rows ++ rest_i)
                    (f ++ float_columns rows ++ rest_f) g o)
             (frame_at (length i) (length f)) rows.
Proof.
  split; intros []; cbn [floc iloc frame_at col_A col_Y col_W1 col_W2
    col_R_A col_R_Y floats ints];
    rewrite ?lookup_app_0, ?lookup_app_add; reflexivity.
Qed.

Lemma generate_rows size g rows g' :
  Spec.generate np_random size g = (rows, g') ->
  length rows = size /\ Forall binary_row rows.
Proof.
  unfold Spec.generate.
  pose proof (normal_length np_random 0 1 size g) as LW1.
  destruct (normal np_random 0 1 size g) as [W1 g1].
  pose proof (normal_length np_random 0 1 size g1) as LN.
  destruct (normal np_random 0 1 size g1) as [N g2].
  cbn [fst] in LW1, LN.
  set (W2 := zip_with (fun n w1 => n + 1.4 * w1) N W1).
  assert (LW2 : length W2 = size)
    by (unfold W2; rewrite length_zip_with; lia).
  match goal with |- context [binomial np_random 1 ?p g2] =>
    pose proof (binomial_length np_random 1 p g2) as LA;
    pose proof (binomial_range np_random 1 p g2 ltac:(lia)) as RA;
    destruct (binomial np_random 1 p g2) as [A g3] end.
  match goal with |- context [binomial np_random 1 ?p g3] =>
    pose proof (binomial_length np_random 1 p g3) as LY;
    pose proof (binomial_range np_random 1 p g3 ltac:(lia)) as RY;
    destruct (binomial np_random 1 p g3) as [Y g4] end.
  match goal with |- context [binomial np_random 1 ?p g4] =>
    pose proof (binomial_length np_random 1 p g4) as LRA;
    pose proof (binomial_range np_random 1 p g4 ltac:(lia)) as RRA;
    destruct (binomial np_random 1 p g4) as [R_A g5] end.
  match goal with |- context [binomial np_random 1 ?p g5] =>
    pose proof (binomial_length np_random 1 p g5) as LRY;
    pose proof (binomial_range np_random 1 p g5 ltac:(lia)) as RRY;
    destruct (binomial np_random 1 p g5) as [R_Y g6] end.
  cbn [fst] in *. rewrite ?length_zip_with, ?length_map in *.
  intros [= <- <-]. unfold Spec.rows_of. split.
  - now rewrite length_map, length_seq.
  - apply Forall_forall. intros u Hu.
    apply list_elem_of_fmap in Hu as (k & -> & Hk).
    apply elem_of_seq in Hk.
    assert (Hnth : forall l : list Z,
               Forall (fun k => (0 <= k <= 1)%Z) l -> length l = size ->
               binary (nth k l 0%Z)).
    { intros l Hl Hlen.
      assert (Hlt : (k < length l)%nat) by lia.
      pose proof (proj1 (List.Forall_nth _ l) Hl k 0%Z Hlt) as Hb.
      cbv beta in Hb. unfold binary. lia. }
    repeat split; cbn; apply Hnth; assumption || lia.
Qed.

Lemma represents_generated i f g o rows :
  let s' := State (i ++ int_columns rows
                     ++ [map row_A (map Spec.mask rows);
                         map row_Y (map Spec.mask rows)]
                     ++ int_columns (map Spec.mask rows))
                  (f ++ float_columns rows ++ float_columns rows) g o in
  represents s' (frame_at (length i) (length f)) rows /\
  represents s' (frame_at (length i + 6) (length f + 2)) (map Spec.mask rows).
Proof.
  intros s'. split; [apply represents_frame_at|].
  pose proof (represents_frame_at
                (i ++ int_columns rows
                   ++ [map row_A (map Spec.mask rows);
                       map row_Y (map Spec.mask rows)])
                (f ++ float_columns rows) g o (map Spec.mask rows) [] []) as H.
  rewrite !length_app in H. cbn [length int_columns float_columns] in H.
  rewrite float_columns_mask, !app_nil_r, <- !app_assoc in H.
  exact H.
Qed.

Lemma mask_consistent u : binary_row u -> masking_consistent u (Spec.mask u).
Proof.
  unfold binary_row, binary, masking_consistent, Spec.mask, sentinel.
  intros (HA & HY & HRA & HRY). cbn.
  destruct HRA as [-> | ->], HRY as [-> | ->]; cbn; repeat split; lia.
Qed.
End Generator.

(** ** Frame properties *)

Lemma read_only_ret {A} (a : A) : read_only (ret a).
Proof. now intros s. Qed.

Lemma read_only_lift {A} (r : result A) : read_only (lift r).
Proof. now intros s. Qed.

Lemma read_only_bind {A B} (m : Py A) (k : A -> Py B) :
  read_only m -> (forall a, read_only (k a)) -> read_only (bind m k).
Proof.
  intros Hm Hk s. unfold bind. specialize (Hm s).
  destruct (m s) as [[a|e] s1]; cbn [snd] in Hm; subst s1; [apply Hk|reflexivity].
Qed.

Lemma read_only_param params i : read_only (param params i).
Proof.
  unfold param. apply read_only_bind; [apply read_only_lift|].
  intros; apply read_only_ret.
Qed.

Lemma read_only_getitem_f df c : read_only (getitem_f df c).
Proof.
  unfold getitem_f. apply read_only_bind; [now intros s|].
  intros; apply read_only_ret.
Qed.

Lemma read_only_getitem_i df c : read_only (getitem_i df c).
Proof.
  unfold getitem_i. apply read_only_bind; [now intros s|].
  intros; apply read_only_ret.
Qed.

Create HintDb frame.
#[local] Hint Resolve read_only_ret read_only_param read_only_getitem_f
  read_only_getitem_i : frame.

Ltac read_only_steps :=
  repeat (apply read_only_bind; [solve [auto with frame]|intros; cbv zeta]);
  auto with frame.

Lemma shadowIpwFunctional_A_read_only params W_1 R_A A data :
  read_only (shadowIpwFunctional_A params W_1 R_A A data).
Proof. unfold shadowIpwFunctional_A. read_only_steps. Qed.

Lemma shadowIpwFunctional_Y_read_only params W_1 W_2 R_Y Y data :
  read_only (shadowIpwFunctional_Y params W_1 W_2 R_Y Y data).
Proof. unfold shadowIpwFunctional_Y. read_only_steps. Qed.

Lemma rootsPrediction_A_read_only roots A data :
  read_only (rootsPrediction_A roots A data).
Proof. unfold rootsPrediction_A. read_only_steps. Qed.

Lemma rootsPrediction_Y_read_only roots W_2 Y data :
  read_only (rootsPrediction_Y roots W_2 Y data).
Proof. unfold rootsPrediction_Y. read_only_steps. Qed.

Lemma get_int_total a s : get_int a s = (Ok (read_int a s), s).
Proof. reflexivity. Qed.

Lemma copy_total a i f g o :
  copy a (State i f g o)
  = (Ok (length i), State (i ++ [read_int a (State i f g o)]) f g o).
Proof. reflexivity. Qed.

(** Deriving the partial dataset only adds objects to the store. *)
Lemma derive_partial_data_extends full W1 W2 R_A R_Y i f g o :
  exists new_ints,
    derive_partial_data full W1 W2 R_A R_Y (State i f g o) =
    (Ok (frame_at (length i + 2) (length f)),
     State (i ++ new_ints) (f ++ [W1; W2]) g o).
Proof.
  unfold derive_partial_data.
  rewrite (bind_run _ _ _ _ _ (copy_total _ _ _ _ _)).
  rewrite (bind_run _ _ _ _ _ (get_int_total _ _)).
  rewrite (bind_run _ _ _ _ _ (setitem_mask_run _ _ _ _ _ _ _)).
  rewrite alter_end.
  rewrite (bind_run _ _ _ _ _ (copy_total _ _ _ _ _)).
  rewrite (bind_run _ _ _ _ _ (get_int_total _ _)).
  rewrite (bind_run _ _ _ _ _ (setitem_mask_run _ _ _ _ _ _ _)).
  rewrite alter_end.
  rewrite (bind_run _ _ _ _ _ (get_int_total _ _)).
  rewrite (bind_run _ _ _ _ _ (get_int_total _ _)).
  rewrite pd_DataFrame_run.
  rewrite !length_app. cbn [length].
  rewrite <- !app_assoc. cbn [app].
  eexists. now rewrite <- !Nat.add_assoc.
Qed.

(** ** float64 arithmetic of the propensity and of the IPW summand *)

Ltac fcases :=
  repeat match goal with
         | |- context [Req_dec_T ?a ?b] => destruct (Req_dec_T a b); try lra
         | |- context [Rlt_dec ?a ?b] => destruct (Rlt_dec a b); try lra
         end.

Lemma fpow_finite g x : g <> 0 \/ (0 <= x)%Z -> exists t, fpow (Fin g) x = Fin t.
Proof.
  intros H. unfold fpow.
  destruct (Z.eqb x 0); [eauto|].
  destruct (Z.ltb_spec x 0); [|eauto].
  destruct (Req_dec_T g 0); [|eauto].
  destruct H; [contradiction|lia].
Qed.

(** With [0 < p0 < 1] and a finite odds-ratio power, [p1] is a non-zero
    number or [+inf] (when its denominator cancels). *)
Lemma p1_not_zero p0 odds x t :
  0 < p0 < 1 -> fpow odds x = Fin t ->
  Spec.p1 (Fin p0) odds x = PInf \/
  exists q, Spec.p1 (Fin p0) odds x = Fin q /\ q <> 0.
Proof.
  intros Hp0 Ht. unfold Spec.p1. rewrite Ht.
  cbn [fsub fneg fadd fmul fdiv]. unfold signed_inf.
  destruct (Req_dec_T (p0 + t * (1 + - p0)) 0) as [Hd|Hd].
  - left. fcases. reflexivity.
  - right. eexists. split; [reflexivity|].
    unfold Rdiv. apply Rmult_integral_contrapositive_currified; [lra|].
    now apply Rinv_neq_0_compat.
Qed.


(** A masked row contributes [- h], whatever [p1] is, as long as [p1] is
    not zero and not [nan]. *)
Lemma ipw_masked h p :
  (p = PInf \/ exists q, p = Fin q /\ q <> 0) ->
  Spec.ipw (Fin h) 0 p = Fin (- h).
Proof.
  intros [-> | (q & -> & Hq)]; unfold Spec.ipw, of_int;
    cbn [fmul fdiv fsub fneg fadd].
  - f_equal. lra.
  - destruct (Req_dec_T q 0); [contradiction|].
    cbn [fsub fneg fadd]. f_equal.
    unfold Rdiv. rewrite Rmult_0_r, Rmult_0_l. lra.
Qed.

Lemma ipw_masked_p1 h p0 g x :
  0 < p0 < 1 -> g <> 0 \/ (0 <= x)%Z ->
  Spec.ipw (Fin h) 0 (Spec.p1 (Fin p0) (Fin g) x) = Fin (- h).
Proof.
  intros Hp0 Hg. destruct (fpow_finite g x Hg) as [t Ht].
  apply ipw_masked. exact (p1_not_zero p0 (Fin g) x t Hp0 Ht).
Qed.

(** ** A dataset alone in the store *)

Lemma represents_store_of rows : represents (store_of rows) (frame_at 0 0) rows.
Proof.
  pose proof (represents_frame_at [] [] [] [] rows [] []) as H.
  cbn [length app] in H. now rewrite !app_nil_r in H.
Qed.

(** * The estimating equations *)

(** C1.  On every dataset and for every parameter vector (alpha_0, gamma)
    the exposure-variant residual function returns the pair (r1, r2) with
    r1 = average (W1 * R_A / p1 - W1) and r2 = average (W1^2 * R_A / p1 - W1^2),
    where p0 = sigmoid alpha_0 and, row by row,
    p1 = p0 / (p0 + gamma^A * (1 - p0)) at that row's (possibly sentinel) A.
    The dataset is left as it was. *)
Theorem shadowIpwFunctional_A_correct s data rows alpha_0 gamma :
  represents s data rows ->
  let p0 := Fin (expit alpha_0) in
  let p1 u := Spec.p1 p0 (Fin gamma) (row_A u) in
  let r1 := Spec.average
              (fun u => Spec.ipw (Fin (row_W1 u)) (row_R_A u) (p1 u)) rows in
  let r2 := Spec.average
              (fun u => Spec.ipw (Fin (row_W1 u ^ 2)) (row_R_A u) (p1 u)) rows in
  shadowIpwFunctional_A [alpha_0; gamma] Col.W1 Col.R_A Col.A data s
  = (Ok [r1; r2], s).
Proof. intros H. exact (shadowIpwFunctional_A_run s data rows alpha_0 gamma H). Qed.

Lemma shadowIpwFunctional_A_correct_witness :
  shadowIpwFunctional_A [0; 1] Col.W1 Col.R_A Col.A (frame_at 0 0)
    (store_of two_rows)
  = (Ok (Spec.residuals_A 0 1 two_rows), store_of two_rows).
Proof.
  apply (shadowIpwFunctional_A_correct (store_of two_rows) (frame_at 0 0)
           two_rows 0 1).
  split; intros []; reflexivity.
Defined.

(** C2.  On every dataset and for every parameter vector
    (alpha_0, alpha_1, gamma_0, gamma_1) the outcome-variant residual
    function returns the four averages of h * R_Y / p1 - h for the
    instruments h = W1*W2, W1*W2 + 1, W1*W2^2, W1*W2^2 + 1, in that order,
    where p0 = sigmoid (alpha_0 + alpha_1 * W2) and
    p1 = p0 / (p0 + (gamma_0 + gamma_1 * W2)^Y * (1 - p0)) row by row. *)
Theorem shadowIpwFunctional_Y_correct s data rows alpha_0 alpha_1 gamma_0 gamma_1 :
  represents s data rows ->
  let p0 u := Fin (expit (alpha_0 + alpha_1 * row_W2 u)) in
  let odds u := Fin (gamma_0 + gamma_1 * row_W2 u) in
  let p1 u := Spec.p1 (p0 u) (odds u) (row_Y u) in
  let r h := Spec.average
               (fun u => Spec.ipw (Fin (h u)) (row_R_Y u) (p1 u)) rows in
  shadowIpwFunctional_Y [alpha_0; alpha_1; gamma_0; gamma_1]
    Col.W1 Col.W2 Col.R_Y Col.Y data s
  = (Ok [ r (fun u => row_W1 u * row_W2 u);
          r (fun u => row_W1 u * row_W2 u + 1);
          r (fun u => row_W1 u * row_W2 u ^ 2);
          r (fun u => row_W1 u * row_W2 u ^ 2 + 1) ], s).
Proof.
  intros H.
  exact (shadowIpwFunctional_Y_run s data rows alpha_0 alpha_1 gamma_0 gamma_1 H).
Qed.

Lemma shadowIpwFunctional_Y_correct_witness :
  shadowIpwFunctional_Y [0; 0; 1; 1] Col.W1 Col.W2 Col.R_Y Col.Y (frame_at 0 0)
    (store_of two_rows)
  = (Ok (Spec.residuals_Y 0 0 1 1 two_rows), store_of two_rows).
Proof.
  apply (shadowIpwFunctional_Y_correct (store_of two_rows) (frame_at 0 0)
           two_rows 0 0 1 1).
  split; intros []; reflexivity.
Defined.

(** * The predictions *)



(** * The data generator *)

(** C3.  Whatever the size, in every pair (full, partial) that the
    generator returns, at every row: R_A = 1 iff the partial A equals the
    full A, and R_A = 0 iff the partial A is the sentinel -1; the same
    for Y and R_Y; and W1, W2, R_A, R_Y agree between the two datasets.
    Without [verbose] the generator always returns. *)
Theorem generateData_masking_consistency np_random size verbose s :
  match generateData np_random size verbose s with
  | (Ok (full_data, partial_data), s') =>
      exists full_rows partial_rows,
        represents s' full_data full_rows /\
        represents s' partial_data partial_rows /\
        length full_rows = size /\
        Forall2 masking_consistent full_rows partial_rows
  | (Raised _, _) => verbose = true
  end.
Proof.
  destruct s as [i f g o].
  destruct (Spec.generate np_random size g) as [rows g'] eqn:Egen.
  destruct (generateData_run np_random size verbose i f g o rows g' Egen)
    as [[o' E] | [-> (e & s' & E)]]; rewrite E; [|reflexivity].
  destruct (generate_rows np_random size g rows g' Egen) as [Hlen Hbin].
  destruct (represents_generated i f g' o' rows) as [Hfull Hpartial].
  exists rows, (map Spec.mask rows).
  split; [exact Hfull|]. split; [exact Hpartial|]. split; [exact Hlen|].
  apply Forall2_fmap_r, Forall_Forall2_diag.
  eapply Forall_impl; [exact Hbin|]. intros u. apply mask_consistent.
Qed.

Lemma generateData_masking_consistency_witness :
  exists full_data partial_data s' full_rows partial_rows,
    generateData alternating_sampler 2 false (State [] [] [10%Z] [])
    = (Ok (full_data, partial_data), s') /\
    represents s' full_data full_rows /\
    represents s' partial_data partial_rows /\
    Forall2 masking_consistent full_rows partial_rows.
Proof.
  pose proof (generateData_masking_consistency alternating_sampler 2 false
                (State [] [] [10%Z] [])) as H.
  destruct (generateData alternating_sampler 2 false (State [] [] [10%Z] []))
    as [[[full_data partial_data]|e] s'].
  - destruct H as (full_rows & partial_rows & Hf & Hp & _ & Hm).
    exists full_data, partial_data, s', full_rows, partial_rows. auto.
  - discriminate H.
Defined.

(** C6.  The generator draws W1 from Normal(0,1); W2 as a further
    Normal(0,1) draw plus 1.4 * W1; A as Bernoulli(sigmoid (W1 + W2));
    Y as Bernoulli(sigmoid (W2 + A - 0.4)); R_A as
    Bernoulli(sigmoid (2 * A + 0.3)); R_Y as
    Bernoulli(sigmoid (2 * Y + W2 + 0.8)), in this order from the
    process-wide generator; and in the full dataset every A, Y, R_A, R_Y
    is 0 or 1. *)
Theorem generateData_draws np_random size verbose s :
  match generateData np_random size verbose s with
  | (Ok (full_data, _), s') =>
      represents s' full_data (Spec.generate np_random size (rng s)).1 /\
      rng s' = (Spec.generate np_random size (rng s)).2 /\
      Forall binary_row (Spec.generate np_random size (rng s)).1
  | (Raised _, _) => verbose = true
  end.
Proof.
  destruct s as [i f g o]. cbn [rng].
  destruct (Spec.generate np_random size g) as [rows g'] eqn:Egen.
  destruct (generateData_run np_random size verbose i f g o rows g' Egen)
    as [[o' E] | [-> (e & s' & E)]]; rewrite E; [|reflexivity].
  destruct (generate_rows np_random size g rows g' Egen) as [Hlen Hbin].
  destruct (represents_generated i f g' o' rows) as [Hfull _].
  cbn [fst snd rng]. auto.
Qed.

Lemma generateData_draws_witness :
  exists full_data partial_data s',
    generateData alternating_sampler 2 false (State [] [] [10%Z] [])
    = (Ok (full_data, partial_data), s') /\
    represents s' full_data
      [ mkRow 0 0 0 (0 + 1.4 * 0) 0 0; mkRow 1 1 0 (0 + 1.4 * 0) 1 1 ].
Proof.
  pose proof (generateData_draws alternating_sampler 2 false
                (State [] [] [10%Z] [])) as H.
  destruct (generateData alternating_sampler 2 false (State [] [] [10%Z] []))
    as [[[full_data partial_data]|e] s'].
  - destruct H as (Hf & _ & _).
    exists full_data, partial_data, s'. split; [reflexivity|exact Hf].
  - discriminate H.
Defined.

(** C8.  Two runs of the seeded generator with the same size and the same
    seed, from whatever states of the interpreter, return the same pair of
    datasets.  (With [verbose] a run may end in an exception instead.) *)
Theorem seeded_generateData_deterministic np_random seed_ size verbose s1 s2 :
  match seeded_generateData np_random seed_ size verbose s1,
        seeded_generateData np_random seed_ size verbose s2 with
  | (Ok (full1, partial1), s1'), (Ok (full2, partial2), s2') =>
      exists full_rows partial_rows,
        represents s1' full1 full_rows /\ represents s2' full2 full_rows /\
        represents s1' partial1 partial_rows /\
        represents s2' partial2 partial_rows
  | _, _ => verbose = true
  end.
Proof.
  destruct s1 as [i1 f1 g1 o1], s2 as [i2 f2 g2 o2].
  unfold seeded_generateData, np_random_seed, bind. cbn [ints floats stdout].
  destruct (Spec.generate np_random size (seed np_random seed_))
    as [rows g'] eqn:Egen.
  destruct (generateData_run np_random size verbose i1 f1 _ o1 rows g' Egen)
    as [[o1' E1] | [Hv (e1 & s1' & E1)]]; rewrite E1; [|exact Hv].
  destruct (generateData_run np_random size verbose i2 f2 _ o2 rows g' Egen)
    as [[o2' E2] | [Hv (e2 & s2' & E2)]]; rewrite E2; [|exact Hv].
  destruct (represents_generated i1 f1 g' o1' rows) as [Hfull1 Hpartial1].
  destruct (represents_generated i2 f2 g' o2' rows) as [Hfull2 Hpartial2].
  now exists rows, (map Spec.mask rows).
Qed.

Lemma seeded_generateData_deterministic_witness :
  exists full1 partial1 s1' full2 partial2 s2' full_rows partial_rows,
    seeded_generateData alternating_sampler 10 2 false (State [] [] [] [])
    = (Ok (full1, partial1), s1') /\
    seeded_generateData alternating_sampler 10 2 false
      (State [[5%Z]] [] [3%Z] [[PyInt 1]])
    = (Ok (full2, partial2), s2') /\
    represents s1' full1 full_rows /\ represents s2' full2 full_rows /\
    represents s1' partial1 partial_rows /\
    represents s2' partial2 partial_rows.
Proof.
  pose proof (seeded_generateData_deterministic alternating_sampler 10 2 false
                (State [] [] [] []) (State [[5%Z]] [] [3%Z] [[PyInt 1]])) as H.
  destruct (seeded_generateData alternating_sampler 10 2 false
              (State [] [] [] [])) as [[[full1 partial1]|e1] s1'];
    [|discriminate H].
  destruct (seeded_generateData alternating_sampler 10 2 false
              (State [[5%Z]] [] [3%Z] [[PyInt 1]]))
    as [[[full2 partial2]|e2] s2']; [|discriminate H].
  destruct H as (full_rows & partial_rows & H1 & H2 & H3 & H4).
  exists full1, partial1, s1', full2, partial2, s2', full_rows, partial_rows.
  auto 10.
Defined.

(** C10.  Datasets are not modified after generation: deriving the partial
    dataset leaves every object that existed before (the full dataset
    among them) with its entries, and neither the residual functions nor
    the prediction functions change anything in the interpreter state. *)
Theorem datasets_immutable :
  (forall full_data W1 W2 R_A R_Y s,
      exists partial_data new_ints new_floats,
        derive_partial_data full_data W1 W2 R_A R_Y s
        = (Ok partial_data,
           State (ints s ++ new_ints) (floats s ++ new_floats)
                 (rng s) (stdout s))) /\
  (forall params W_1 R_A A data,
      read_only (shadowIpwFunctional_A params W_1 R_A A data)) /\
  (forall params W_1 W_2 R_Y Y data,
      read_only (shadowIpwFunctional_Y params W_1 W_2 R_Y Y data)) /\
  (forall roots A data, read_only (rootsPrediction_A roots A data)) /\
  (forall roots W_2 Y data, read_only (rootsPrediction_Y roots W_2 Y data)).
Proof.
  split; [|repeat split].
  - intros full_data W1 W2 R_A R_Y [i f g o].
    destruct (derive_partial_data_extends full_data W1 W2 R_A R_Y i f g o)
      as [new_ints E].
    rewrite E. cbn [ints floats rng stdout]. eauto.
  - intros. apply shadowIpwFunctional_A_read_only.
  - intros. apply shadowIpwFunctional_Y_read_only.
  - intros. apply rootsPrediction_A_read_only.
  - intros. apply rootsPrediction_Y_read_only.
Qed.

(** * Masked rows *)

Lemma average_ext_Forall (P : row -> Prop) (f g : row -> float64) rows :
  Forall P rows -> (forall u, P u -> f u = g u) ->
  Spec.average f rows = Spec.average g rows.
Proof.
  intros HP Hfg. unfold Spec.average.
  now rewrite (map_ext_Forall' P f g rows HP Hfg).
Qed.

Lemma average_mask_with k (f g : row -> float64) rows :
  (forall u, f (Spec.mask_with k u) = g u) ->
  Spec.average f (map (Spec.mask_with k) rows) = Spec.average g rows.
Proof.
  intros Hfg. unfold Spec.average. rewrite map_map_fuse, length_map.
  do 2 f_equal. apply map_ext. exact Hfg.
Qed.

Lemma masked_ipw_A alpha gamma h u :
  gamma <> 0 ->
  Spec.ipw (Fin h) (row_R_A u) (Spec.p1_A alpha gamma u)
  = Spec.masked_ipw h (row_R_A u) (Spec.p1_A alpha gamma u).
Proof.
  intros Hg. unfold Spec.masked_ipw.
  destruct (Z.eqb_spec (row_R_A u) 0) as [->|]; [|reflexivity].
  apply ipw_masked_p1; [apply expit_range|now left].
Qed.

Lemma masked_ipw_Y alpha_0 alpha_1 gamma_0 gamma_1 h u :
  (row_R_Y u = 0%Z ->
   gamma_0 + gamma_1 * row_W2 u <> 0 \/ (0 <= row_Y u)%Z) ->
  Spec.ipw (Fin h) (row_R_Y u) (Spec.p1_Y alpha_0 alpha_1 gamma_0 gamma_1 u)
  = Spec.masked_ipw h (row_R_Y u) (Spec.p1_Y alpha_0 alpha_1 gamma_0 gamma_1 u).
Proof.
  intros Hg. unfold Spec.masked_ipw.
  destruct (Z.eqb_spec (row_R_Y u) 0) as [E|]; [|reflexivity].
  rewrite E. apply ipw_masked_p1; [apply expit_range|now apply Hg].
Qed.

Lemma residuals_A_masked alpha gamma rows :
  gamma <> 0 ->
  Spec.residuals_A alpha gamma rows = Spec.masked_residuals_A alpha gamma rows.
Proof.
  intros Hg. unfold Spec.residuals_A, Spec.masked_residuals_A.
  f_equal; [|f_equal];
    apply (average_ext_Forall (fun _ => True));
    try (apply Forall_true; exact (fun _ => I));
    intros u _; now apply masked_ipw_A.
Qed.

Lemma residuals_Y_masked alpha_0 alpha_1 gamma_0 gamma_1 rows :
  Forall (fun u => row_R_Y u = 0%Z ->
                   gamma_0 + gamma_1 * row_W2 u <> 0 \/ (0 <= row_Y u)%Z) rows ->
  Spec.residuals_Y alpha_0 alpha_1 gamma_0 gamma_1 rows
  = Spec.masked_residuals_Y alpha_0 alpha_1 gamma_0 gamma_1 rows.
Proof.
  intros Hg. unfold Spec.residuals_Y, Spec.masked_residuals_Y.
  apply map_ext. intros h.
  apply (average_ext_Forall _ _ _ _ Hg). intros u Hu. now apply masked_ipw_Y.
Qed.

Ltac fcompute :=
  repeat (progress (cbn [fadd fsub fneg fmul fdiv of_int INR pow];
                    unfold signed_inf; fcases)).

(** * The sentinel in the outcome variant *)

(** C5, as stated, fails: at the script's own initial guess (0, 0, 1, 1) a
    unit with R_Y = 0 and W2 = -1 has the odds ratio 1 + 1 * (-1) = 0; at
    the sentinel Y = -1 the power 0 ** -1 is +inf, p1 is 0, and the
    summand (h * 0) / 0 is nan in all four residual entries.  With the
    true Y = 0 in place of the sentinel the same unit gives the finite
    residuals (1, 0, -1, -2). *)
Lemma sentinel_Y_poisons_residuals :
  shadowIpwFunctional_Y [0; 0; 1; 1] Col.W1 Col.W2 Col.R_Y Col.Y (frame_at 0 0)
    (store_of (map Spec.mask zero_odds_rows))
  = (Ok [NaN; NaN; NaN; NaN], store_of (map Spec.mask zero_odds_rows)) /\
  shadowIpwFunctional_Y [0; 0; 1; 1] Col.W1 Col.W2 Col.R_Y Col.Y (frame_at 0 0)
    (store_of zero_odds_rows)
  = (Ok [Fin 1; Fin 0; Fin (-1); Fin (-2)], store_of zero_odds_rows).
Proof.
  split.
  - rewrite (shadowIpwFunctional_Y_run _ _ _ _ _ _ _
               (represents_store_of (map Spec.mask zero_odds_rows))).
    do 2 f_equal.
    unfold Spec.residuals_Y, Spec.instruments, Spec.average, Spec.ipw,
      Spec.p1_Y, Spec.p1, Spec.p0_Y, Spec.odds_Y, zero_odds_rows.
    cbn [map Spec.mask Spec.mask_with row_W1 row_W2 row_Y row_R_Y row_R_A row_A
         Z.eqb length fsum foldr of_int].
    pose proof (expit_range (0 + 0 * -1)) as Hp0.
    set (p0 := expit (0 + 0 * -1)) in *.
    unfold fpow, sentinel. cbn [Z.eqb Z.ltb Z.compare].
    fcompute. reflexivity.
  - rewrite (shadowIpwFunctional_Y_run _ _ _ _ _ _ _
               (represents_store_of zero_odds_rows)).
    do 2 f_equal.
    rewrite residuals_Y_masked
      by (constructor; [cbn; intros _; right; lia|constructor]).
    unfold Spec.masked_residuals_Y, Spec.instruments, Spec.average,
      Spec.masked_ipw, zero_odds_rows.
    cbn [map row_W1 row_W2 row_Y row_R_Y Z.eqb length fsum foldr].
    fcompute. repeat (f_equal; try lra).
Qed.

(** * Degenerate datasets *)

(** C7, as stated, fails: on a dataset in which every A is the sentinel
    the exposure-variant residual function, at the script's initial guess
    (0, 1), raises nothing and returns the residuals (-2, -5). *)
Lemma all_missing_not_rejected :
  shadowIpwFunctional_A [0; 1] Col.W1 Col.R_A Col.A (frame_at 0 0)
    (store_of all_missing_rows)
  = (Ok [Fin (-2); Fin (-5)], store_of all_missing_rows).
Proof.
  rewrite (shadowIpwFunctional_A_run _ _ _ _ _
             (represents_store_of all_missing_rows)).
  do 2 f_equal.
  rewrite residuals_A_masked by lra.
  unfold Spec.masked_residuals_A, Spec.average, Spec.masked_ipw,
    all_missing_rows.
  cbn [map row_W1 row_R_A Z.eqb length fsum foldr].
  fcompute. repeat (f_equal; try lra).
Qed.

(** C7, amended.  The residual functions reject nothing: on every dataset,
    also one in which every row's response is the sentinel, and for every
    parameter vector of the right length they raise no error and return a
    residual vector, of two and of four entries. *)
Theorem residual_functions_reject_nothing s data rows
    alpha gamma alpha_0 alpha_1 gamma_0 gamma_1 :
  represents s data rows ->
  (exists r1 r2,
      shadowIpwFunctional_A [alpha; gamma] Col.W1 Col.R_A Col.A data s
      = (Ok [r1; r2], s)) /\
  (exists r1 r2 r3 r4,
      shadowIpwFunctional_Y [alpha_0; alpha_1; gamma_0; gamma_1]
        Col.W1 Col.W2 Col.R_Y Col.Y data s
      = (Ok [r1; r2; r3; r4], s)).
Proof.
  intros H.
  rewrite (shadowIpwFunctional_A_run _ _ _ _ _ H).
  rewrite (shadowIpwFunctional_Y_run _ _ _ _ _ _ _ H).
  split.
  - unfold Spec.residuals_A. eauto.
  - unfold Spec.residuals_Y, Spec.instruments. cbn [map]. eauto 6.
Qed.

Lemma residual_functions_reject_nothing_witness :
  exists r1 r2,
    shadowIpwFunctional_A [0; 1] Col.W1 Col.R_A Col.A (frame_at 0 0)
      (store_of all_missing_rows)
    = (Ok [r1; r2], store_of all_missing_rows).
Proof.
  apply (residual_functions_reject_nothing (store_of all_missing_rows)
           (frame_at 0 0) all_missing_rows 0 1 0 0 1 1).
  split; intros []; reflexivity.
Defined.

(** * Binary64: the sentinel and the masked rows *)

Lemma same_number_sym x y :
  Binary64.same_number x y -> Binary64.same_number y x.
Proof. intros [->|[H H']]; [now left|now right]. Qed.

Lemma same_number_trans x y z :
  Binary64.same_number x y -> Binary64.same_number y z ->
  Binary64.same_number x z.
Proof.
  intros [->|[Hx Hy]] [<-|[Hy' Hz]]; try (now left); try (now right).
Qed.

Lemma Forall2_same_number_trans l1 l2 l3 :
  Forall2 Binary64.same_number l1 l2 -> Forall2 Binary64.same_number l2 l3 ->
  Forall2 Binary64.same_number l1 l3.
Proof.
  intros H. revert l3.
  induction H as [|x y l1 l2 Hxy _ IH]; intros l3 H3; inversion H3; subst;
    constructor; [now apply (same_number_trans _ y)|now apply IH].
Qed.

Lemma Forall2_same_number_sym l1 l2 :
  Forall2 Binary64.same_number l1 l2 -> Forall2 Binary64.same_number l2 l1.
Proof.
  induction 1; constructor; [now apply same_number_sym|assumption].
Qed.

Lemma fdiv_proper_l x x' y :
  Binary64.same_number x x' ->
  Binary64.same_number (Binary64.fdiv x y) (Binary64.fdiv x' y).
Proof.
  intros [->|[H H']]; [now left|].
  destruct x as [[]| | |], x' as [[]| | |]; try discriminate;
    destruct y as [[]|[]| |[] m e]; unfold Binary64.fdiv; cbn;
    first [now left | now right].
Qed.

(** A masked row: zero times a finite instrument, over a propensity that is
    neither zero nor nan, is a zero, and the summand is [- h]. *)
Lemma ipw_masked_binary64 h p :
  Binary64.is_finite h = true -> Binary64.usable p = true ->
  Binary64.same_number (Binary64.ipw h 0 p) (Binary64.fneg h).
Proof.
  intros Hh Hp. unfold Binary64.ipw.
  change (Binary64.of_int 0) with (S754_zero false).
  destruct h as [[]| | |[] mh eh]; try discriminate;
    destruct p as [|[]| |[] mp ep]; try discriminate;
    unfold Binary64.fsub, Binary64.fdiv, Binary64.fmul; cbn;
    first [now left | now right].
Qed.

Section Binary64_rows.
Variable numerics : Binary64.Numerics.

Lemma average_same_number (f g : Binary64.row -> Binary64.float64) rows rows' :
  Forall2 (fun u u' => Binary64.same_number (f u) (g u')) rows rows' ->
  Binary64.same_number (Binary64.average numerics f rows)
                       (Binary64.average numerics g rows').
Proof.
  intros H. unfold Binary64.average.
  rewrite (Forall2_length _ _ _ H).
  apply fdiv_proper_l, Binary64.sum_proper.
  now apply Forall2_fmap.
Qed.

Ltac vectorise64 :=
  cbn [Binary64.vadd Binary64.vsub Binary64.vmul Binary64.vdiv Binary64.vpow
       Binary64.vexpit Binary64.broadcast Binary64.promote int_
       Binary64.np_average Binary64.getitem_f Binary64.getitem_i
       Binary64.frame_of Binary64.col_A Binary64.col_Y Binary64.col_W1
       Binary64.col_W2 Binary64.col_R_A Binary64.col_R_Y];
  repeat (rewrite ?zip_with_map_map, ?map_map_fuse, ?length_map).

Lemma shadowIpwFunctional_A_rows alpha gamma rows :
  Binary64.shadowIpwFunctional_A numerics [alpha; gamma]
    Col.W1 Col.R_A Col.A (Binary64.frame_of rows)
  = Ok (Binary64.residuals_A numerics alpha gamma rows).
Proof.
  unfold Binary64.shadowIpwFunctional_A, Binary64.param, index.
  cbn [lookup list_lookup Binary64.bind]. vectorise64. reflexivity.
Qed.

Lemma shadowIpwFunctional_Y_rows alpha_0 alpha_1 gamma_0 gamma_1 rows :
  Binary64.shadowIpwFunctional_Y numerics [alpha_0; alpha_1; gamma_0; gamma_1]
    Col.W1 Col.W2 Col.R_Y Col.Y (Binary64.frame_of rows)
  = Ok (Binary64.residuals_Y numerics alpha_0 alpha_1 gamma_0 gamma_1 rows).
Proof.
  unfold Binary64.shadowIpwFunctional_Y, Binary64.param, index.
  cbn [lookup list_lookup Binary64.bind]. vectorise64. reflexivity.
Qed.


Lemma rootsPrediction_Y_rows alpha_0 alpha_1 gamma_0 gamma_1 rows :
  Binary64.rootsPrediction_Y numerics [alpha_0; alpha_1; gamma_0; gamma_1]
    Col.W2 Col.Y (Binary64.frame_of rows)
  = Ok (Binary64.Series
          (map (Binary64.p1_Y numerics alpha_0 alpha_1 gamma_0 gamma_1) rows)).
Proof.
  unfold Binary64.rootsPrediction_Y, Binary64.param, index.
  cbn [lookup list_lookup Binary64.bind]. vectorise64. reflexivity.
Qed.

End Binary64_rows.

(** ** What masking changes *)

Section Binary64_masking.
Variable numerics : Binary64.Numerics.

Lemma instruments_A_mask_with k h u :
  h ∈ Binary64.instruments_A numerics -> h (Binary64.mask_with k u) = h u.
Proof.
  unfold Binary64.instruments_A. rewrite !elem_of_cons, elem_of_nil.
  intros [-> | [-> | []]]; reflexivity.
Qed.

Lemma instruments_Y_mask_with k h u :
  h ∈ Binary64.instruments_Y numerics -> h (Binary64.mask_with k u) = h u.
Proof.
  unfold Binary64.instruments_Y. rewrite !elem_of_cons, elem_of_nil.
  intros [-> | [-> | [-> | [-> | []]]]]; reflexivity.
Qed.

(** With the masked rows usable, the residuals of a dataset masked with
    [k] are those with [- h] written at the masked rows. *)
Lemma residuals_A_masked_binary64 alpha gamma k rows :
  Binary64.masked_rows_usable_A numerics alpha gamma k rows ->
  Forall2 Binary64.same_number
    (Binary64.residuals_A numerics alpha gamma
       (map (Binary64.mask_with k) rows))
    (Binary64.masked_residuals_A numerics alpha gamma rows).
Proof.
  intros Hok. unfold Binary64.residuals_A, Binary64.masked_residuals_A.
  apply Forall2_fmap, Forall_Forall2_diag, Forall_forall. intros h Hh.
  apply average_same_number.
  apply Forall2_fmap_l, Forall_Forall2_diag.
  eapply Forall_impl; [exact Hok|]. intros u Hu.
  unfold compose. cbv beta in Hu |- *.
  rewrite (instruments_A_mask_with k h u Hh).
  unfold Binary64.masked_ipw.
  cbn [Binary64.mask_with Binary64.row_R_A].
  destruct (Z.eqb_spec (Binary64.row_R_A u) 0) as [E|E].
  - destruct (Hu E) as [Hfin Hp]. rewrite E.
    apply ipw_masked_binary64; [|exact Hp].
    rewrite Forall_forall in Hfin. now apply Hfin.
  - left. unfold Binary64.p1_A. cbn [Binary64.mask_with Binary64.row_A].
    now rewrite (proj2 (Z.eqb_neq _ _) E).
Qed.

Lemma residuals_Y_masked_binary64 alpha_0 alpha_1 gamma_0 gamma_1 k rows :
  Binary64.masked_rows_usable_Y numerics alpha_0 alpha_1 gamma_0 gamma_1 k rows ->
  Forall2 Binary64.same_number
    (Binary64.residuals_Y numerics alpha_0 alpha_1 gamma_0 gamma_1
       (map (Binary64.mask_with k) rows))
    (Binary64.masked_residuals_Y numerics alpha_0 alpha_1 gamma_0 gamma_1 rows).
Proof.
  intros Hok. unfold Binary64.residuals_Y, Binary64.masked_residuals_Y.
  apply Forall2_fmap, Forall_Forall2_diag, Forall_forall. intros h Hh.
  apply average_same_number.
  apply Forall2_fmap_l, Forall_Forall2_diag.
  eapply Forall_impl; [exact Hok|]. intros u Hu.
  unfold compose. cbv beta in Hu |- *.
  rewrite (instruments_Y_mask_with k h u Hh).
  unfold Binary64.masked_ipw.
  cbn [Binary64.mask_with Binary64.row_R_Y].
  destruct (Z.eqb_spec (Binary64.row_R_Y u) 0) as [E|E].
  - destruct (Hu E) as [Hfin Hp]. rewrite E.
    apply ipw_masked_binary64; [|exact Hp].
    rewrite Forall_forall in Hfin. now apply Hfin.
  - left. unfold Binary64.p1_Y.
    cbn [Binary64.mask_with Binary64.row_Y Binary64.row_W2].
    now rewrite (proj2 (Z.eqb_neq _ _) E).
Qed.

End Binary64_masking.

Section Binary64_written_out.
Variable numerics : Binary64.Numerics.

(** The same on a dataset as it is, for the rows whose own propensity is
    usable. *)
Lemma residuals_Y_written_out alpha_0 alpha_1 gamma_0 gamma_1 rows :
  Forall (fun u =>
            Binary64.row_R_Y u = 0%Z ->
            Forall (fun h => Binary64.is_finite (h u) = true)
                   (Binary64.instruments_Y numerics) /\
            Binary64.usable
              (Binary64.p1_Y numerics alpha_0 alpha_1 gamma_0 gamma_1 u) = true)
         rows ->
  Forall2 Binary64.same_number
    (Binary64.residuals_Y numerics alpha_0 alpha_1 gamma_0 gamma_1 rows)
    (Binary64.masked_residuals_Y numerics alpha_0 alpha_1 gamma_0 gamma_1 rows).
Proof.
  intros Hok. unfold Binary64.residuals_Y, Binary64.masked_residuals_Y.
  apply Forall2_fmap, Forall_Forall2_diag, Forall_forall. intros h Hh.
  apply average_same_number, Forall_Forall2_diag.
  eapply Forall_impl; [exact Hok|]. intros u Hu. cbv beta in Hu |- *.
  unfold Binary64.masked_ipw.
  destruct (Z.eqb_spec (Binary64.row_R_Y u) 0) as [E|E]; [|now left].
  destruct (Hu E) as [Hfin Hp]. rewrite E.
  apply ipw_masked_binary64; [|exact Hp].
  rewrite Forall_forall in Hfin. now apply Hfin.
Qed.

End Binary64_written_out.

(** C9, amended.  In binary64 a non-zero odds ratio is not enough (see
    [underflow_poisons_masked_rows]).  What makes a masked row contribute
    - h is that, at the row, the instruments are finite numbers and the
    propensity p1 computed from the number that stands for the missing
    value is neither zero nor nan.  For every dataset, every parameter
    vector and every number k that meet this at the rows with R_A = 0
    (resp. R_Y = 0), the residuals are, as numbers, the averages in which
    each masked row contributes - h; hence two numbers k and k' that both
    meet it give the same residual vector. *)
Theorem masked_rows_contribute_minus_h numerics rows k k'
    alpha gamma alpha_0 alpha_1 gamma_0 gamma_1 :
  let residuals_A k :=
    Binary64.shadowIpwFunctional_A numerics [alpha; gamma]
      Col.W1 Col.R_A Col.A
      (Binary64.frame_of (map (Binary64.mask_with k) rows)) in
  let residuals_Y k :=
    Binary64.shadowIpwFunctional_Y numerics
      [alpha_0; alpha_1; gamma_0; gamma_1] Col.W1 Col.W2 Col.R_Y Col.Y
      (Binary64.frame_of (map (Binary64.mask_with k) rows)) in
  (Binary64.masked_rows_usable_A numerics alpha gamma k rows ->
   Binary64.masked_rows_usable_A numerics alpha gamma k' rows ->
   exists r r',
     residuals_A k = Ok r /\ residuals_A k' = Ok r' /\
     Forall2 Binary64.same_number r
       (Binary64.masked_residuals_A numerics alpha gamma rows) /\
     Forall2 Binary64.same_number r r') /\
  (Binary64.masked_rows_usable_Y numerics alpha_0 alpha_1 gamma_0 gamma_1 k rows ->
   Binary64.masked_rows_usable_Y numerics alpha_0 alpha_1 gamma_0 gamma_1 k' rows ->
   exists r r',
     residuals_Y k = Ok r /\ residuals_Y k' = Ok r' /\
     Forall2 Binary64.same_number r
       (Binary64.masked_residuals_Y numerics alpha_0 alpha_1 gamma_0 gamma_1
          rows) /\
     Forall2 Binary64.same_number r r').
Proof.
  intros residuals_A residuals_Y. unfold residuals_A, residuals_Y. split.
  - intros Hk Hk'. rewrite !shadowIpwFunctional_A_rows.
    pose proof (residuals_A_masked_binary64 numerics alpha gamma k rows Hk)
      as H.
    pose proof (residuals_A_masked_binary64 numerics alpha gamma k' rows Hk')
      as H'.
    eexists _, _. split; [reflexivity|]. split; [reflexivity|].
    split; [exact H|].
    eapply Forall2_same_number_trans; [exact H|].
    now apply Forall2_same_number_sym.
  - intros Hk Hk'. rewrite !shadowIpwFunctional_Y_rows.
    pose proof (residuals_Y_masked_binary64 numerics alpha_0 alpha_1 gamma_0
                  gamma_1 k rows Hk) as H.
    pose proof (residuals_Y_masked_binary64 numerics alpha_0 alpha_1 gamma_0
                  gamma_1 k' rows Hk') as H'.
    eexists _, _. split; [reflexivity|]. split; [reflexivity|].
    split; [exact H|].
    eapply Forall2_same_number_trans; [exact H|].
    now apply Forall2_same_number_sym.
Qed.

(** C5, amended.  In binary64 the sentinel is safe at the rows with
    R_Y = 0 where the instruments are finite numbers and the propensity p1
    is neither zero nor nan, computed from the sentinel and computed from
    the true Y: such a row is multiplied by R_Y = 0 in the numerator and
    contributes - h either way, so the residuals on the partial dataset
    are, as numbers, those on the full dataset. *)
Theorem sentinel_Y_safe_for_usable_propensity numerics rows
    alpha_0 alpha_1 gamma_0 gamma_1 :
  Binary64.masked_rows_usable_Y numerics alpha_0 alpha_1 gamma_0 gamma_1
    sentinel rows ->
  Forall (fun u =>
            Binary64.row_R_Y u = 0%Z ->
            Binary64.usable
              (Binary64.p1_Y numerics alpha_0 alpha_1 gamma_0 gamma_1 u) = true)
         rows ->
  exists partial full,
    Binary64.shadowIpwFunctional_Y numerics
      [alpha_0; alpha_1; gamma_0; gamma_1] Col.W1 Col.W2 Col.R_Y Col.Y
      (Binary64.frame_of (map (Binary64.mask_with sentinel) rows))
    = Ok partial /\
    Binary64.shadowIpwFunctional_Y numerics
      [alpha_0; alpha_1; gamma_0; gamma_1] Col.W1 Col.W2 Col.R_Y Col.Y
      (Binary64.frame_of rows)
    = Ok full /\
    Forall2 Binary64.same_number partial full.
Proof.
  intros Hsentinel Htrue. rewrite !shadowIpwFunctional_Y_rows.
  eexists _, _. split; [reflexivity|]. split; [reflexivity|].
  eapply Forall2_same_number_trans.
  - apply residuals_Y_masked_binary64. exact Hsentinel.
  - apply Forall2_same_number_sym, residuals_Y_written_out.
    unfold Binary64.masked_rows_usable_Y in Hsentinel.
    rewrite Forall_forall in Hsentinel, Htrue. apply Forall_forall.
    intros u Hu E. split; [apply (Hsentinel u Hu E)|apply (Htrue u Hu E)].
Qed.

Lemma masked_rows_contribute_minus_h_witness :
  exists r r',
    Binary64.shadowIpwFunctional_A Binary64.reference
      [S754_zero false; Binary64.of_int 1] Col.W1 Col.R_A Col.A
      (Binary64.frame_of (map (Binary64.mask_with (-1)) Binary64.two_rows))
    = Ok r /\
    Binary64.shadowIpwFunctional_A Binary64.reference
      [S754_zero false; Binary64.of_int 1] Col.W1 Col.R_A Col.A
      (Binary64.frame_of (map (Binary64.mask_with 7) Binary64.two_rows))
    = Ok r' /\
    Forall2 Binary64.same_number r r'.
Proof.
  destruct (masked_rows_contribute_minus_h Binary64.reference
              Binary64.two_rows (-1) 7
              (S754_zero false) (Binary64.of_int 1)
              (S754_zero false) (S754_zero false)
              (Binary64.of_int 1) (S754_zero false)) as [HA _].
  destruct HA as (r & r' & E & E' & _ & H).
  - constructor; [intros _; split; [|reflexivity]|].
    + constructor; [reflexivity|]. constructor; [reflexivity|constructor].
    + constructor; [discriminate|constructor].
  - constructor; [intros _; split; [|reflexivity]|].
    + constructor; [reflexivity|]. constructor; [reflexivity|constructor].
    + constructor; [discriminate|constructor].
  - exists r, r'. split; [exact E|]. split; [exact E'|exact H].
Defined.

Lemma sentinel_Y_safe_for_usable_propensity_witness :
  exists partial full,
    Binary64.shadowIpwFunctional_Y Binary64.reference
      [S754_zero false; S754_zero false; Binary64.of_int 1; S754_zero false]
      Col.W1 Col.W2 Col.R_Y Col.Y
      (Binary64.frame_of (map (Binary64.mask_with sentinel) Binary64.two_rows))
    = Ok partial /\
    Binary64.shadowIpwFunctional_Y Binary64.reference
      [S754_zero false; S754_zero false; Binary64.of_int 1; S754_zero false]
      Col.W1 Col.W2 Col.R_Y Col.Y (Binary64.frame_of Binary64.two_rows)
    = Ok full /\
    Forall2 Binary64.same_number partial full.
Proof.
  apply (sentinel_Y_safe_for_usable_propensity Binary64.reference
           Binary64.two_rows (S754_zero false) (S754_zero false)
           (Binary64.of_int 1) (S754_zero false)).
  - constructor; [intros _; split; [|reflexivity]|].
    + repeat (constructor; [reflexivity|]). constructor.
    + constructor; [discriminate|constructor].
  - constructor; [intros _; reflexivity|].
    constructor; [discriminate|constructor].
Defined.

(** * Binary64: where rounding, underflow and overflow decide *)

(** In binary64 the sigmoid underflows: at alpha = -800 it is 0.0.  With
    the odds ratio gamma = 1, which is not zero, a row whose A is missing
    then has p1 = 0 / (0 + 1 * 1) = 0, its summand is (W1 * 0) / 0 = nan,
    and both residuals are nan, whatever library computes the sigmoid, the
    power and the sum. *)
Lemma underflow_poisons_masked_rows_with numerics :
  Binary64.shadowIpwFunctional_A numerics
    [Binary64.of_int (-800); Binary64.of_int 1] Col.W1 Col.R_A Col.A
    (Binary64.frame_of Binary64.masked_row)
  = Ok [Binary64.NaN; Binary64.NaN].
Proof.
  rewrite shadowIpwFunctional_A_rows.
  unfold Binary64.residuals_A, Binary64.instruments_A, Binary64.average,
    Binary64.ipw, Binary64.p1_A, Binary64.p1, Binary64.masked_row.
  cbn [map length Binary64.row_W1 Binary64.row_R_A Binary64.row_A].
  rewrite (Binary64.expit_underflow numerics) by reflexivity.
  rewrite !(Binary64.pow_one numerics).
  set (summand := Binary64.fsub _ _).
  assert (E : summand = Binary64.NaN) by reflexivity.
  rewrite E, (Binary64.sum_nan numerics) by apply list_elem_of_here.
  reflexivity.
Qed.

(** C9, as stated, fails in binary64: the odds ratio 1 is not zero, and
    the row with a missing A does not contribute - W1 = -1: the residuals
    are nan. *)
Lemma underflow_poisons_masked_rows :
  Binary64.is_zero (Binary64.of_int 1) = false /\
  Binary64.shadowIpwFunctional_A Binary64.reference
    [Binary64.of_int (-800); Binary64.of_int 1] Col.W1 Col.R_A Col.A
    (Binary64.frame_of Binary64.masked_row)
  = Ok [Binary64.NaN; Binary64.NaN].
Proof.
  split; [reflexivity|]. apply underflow_poisons_masked_rows_with.
Qed.



(** * Further properties of the code *)

(** ** Reading any store *)

Lemma getitem_i_total df c s :
  getitem_i df c s = (Ok (ISeries (read_int (iloc df c) s)), s).
Proof. reflexivity. Qed.

Lemma getitem_f_total df c s :
  getitem_f df c s = (Ok (Series (read_float (floc df c) s)), s).
Proof. reflexivity. Qed.

Ltac py_total :=
  repeat (erewrite bind_run
            by first [ apply getitem_i_total
                     | apply getitem_f_total
                     | apply param_run; reflexivity ];
          cbv beta zeta).

(** ** Parameter vectors of the wrong length *)

(** X1.  The two functions of the exposure model index their parameter
    list at 0 and 1 only.  On any dataset, either the list has fewer than
    two entries and both raise IndexError, changing nothing; or it starts
    with alpha, gamma, both return, and the entries after the second are
    ignored. *)
Theorem exposure_params_arity params W_1 R_A A data s :
  ((length params < 2)%nat /\
   shadowIpwFunctional_A params W_1 R_A A data s = (Raised IndexError, s) /\
   rootsPrediction_A params A data s = (Raised IndexError, s)) \/
  (exists alpha gamma rest r1 r2 predictions,
      params = alpha :: gamma :: rest /\
      shadowIpwFunctional_A params W_1 R_A A data s = (Ok [r1; r2], s) /\
      rootsPrediction_A params A data s = (Ok (Series predictions), s) /\
      shadowIpwFunctional_A params W_1 R_A A data s
      = shadowIpwFunctional_A [alpha; gamma] W_1 R_A A data s /\
      rootsPrediction_A params A data s
      = rootsPrediction_A [alpha; gamma] A data s).
Proof.
  destruct params as [|alpha [|gamma rest]].
  - left. cbn. repeat split; lia.
  - left. cbn. repeat split; lia.
  - right. exists alpha, gamma, rest.
    assert (HA : exists r1 r2,
               shadowIpwFunctional_A (alpha :: gamma :: rest) W_1 R_A A data s
               = (Ok [r1; r2], s))
      by (unfold shadowIpwFunctional_A; py_total; vectorise; unfold ret; eauto).
    assert (HP : exists predictions,
               rootsPrediction_A (alpha :: gamma :: rest) A data s
               = (Ok (Series predictions), s))
      by (unfold rootsPrediction_A; py_total; vectorise; unfold ret; eauto).
    destruct HA as (r1 & r2 & HA), HP as (predictions & HP).
    exists r1, r2, predictions. rewrite HA, HP. repeat split.
    + rewrite <- HA. reflexivity.
    + rewrite <- HP. reflexivity.
Qed.

(** X2.  The two functions of the outcome model index their parameter list
    at 0 to 3 only.  On any dataset, either the list has fewer than four
    entries and both raise IndexError, changing nothing; or both return and
    the entries after the fourth are ignored. *)
Theorem outcome_params_arity params W_1 W_2 R_Y Y data s :
  ((length params < 4)%nat /\
   shadowIpwFunctional_Y params W_1 W_2 R_Y Y data s = (Raised IndexError, s) /\
   rootsPrediction_Y params W_2 Y data s = (Raised IndexError, s)) \/
  (exists a0 a1 g0 g1 rest r1 r2 r3 r4 predictions,
      params = a0 :: a1 :: g0 :: g1 :: rest /\
      shadowIpwFunctional_Y params W_1 W_2 R_Y Y data s
      = (Ok [r1; r2; r3; r4], s) /\
      rootsPrediction_Y params W_2 Y data s = (Ok (Series predictions), s) /\
      shadowIpwFunctional_Y params W_1 W_2 R_Y Y data s
      = shadowIpwFunctional_Y [a0; a1; g0; g1] W_1 W_2 R_Y Y data s /\
      rootsPrediction_Y params W_2 Y data s
      = rootsPrediction_Y [a0; a1; g0; g1] W_2 Y data s).
Proof.
  destruct params as [|a0 [|a1 [|g0 [|g1 rest]]]].
  1-4: left; cbn; repeat split; lia.
  right. exists a0, a1, g0, g1, rest.
  assert (HY : exists r1 r2 r3 r4,
             shadowIpwFunctional_Y (a0 :: a1 :: g0 :: g1 :: rest)
               W_1 W_2 R_Y Y data s
             = (Ok [r1; r2; r3; r4], s))
    by (unfold shadowIpwFunctional_Y; py_total; vectorise; unfold ret; eauto 6).
  assert (HP : exists predictions,
             rootsPrediction_Y (a0 :: a1 :: g0 :: g1 :: rest) W_2 Y data s
             = (Ok (Series predictions), s))
    by (unfold rootsPrediction_Y; py_total; vectorise; unfold ret; eauto).
  destruct HY as (r1 & r2 & r3 & r4 & HY), HP as (predictions & HP).
  exists r1, r2, r3, r4, predictions. rewrite HY, HP. repeat split.
  - rewrite <- HY. reflexivity.
  - rewrite <- HP. reflexivity.
Qed.

(** ** The estimating equations and the predictions share the propensity *)

(** X3.  Each residual function evaluates the propensity exactly as the
    matching prediction function does: whatever the parameters, the columns
    chosen and the store, the residuals are the averages of
    h * R / predictions - h over the predictions that the prediction
    function returns, and a residual function raises when and what the
    prediction function raises. *)
Theorem residuals_use_predictions params W_1 W_2 R c data s :
  let w1 := Series (read_float (floc data W_1) s) in
  let w2 := Series (read_float (floc data W_2) s) in
  let r := ISeries (read_int (iloc data R) s) in
  match rootsPrediction_A params c data s with
  | (Ok p, _) =>
      shadowIpwFunctional_A params W_1 R c data s
      = (Ok [ np_average ((w1 * r) / p - w1)%np;
              np_average ((w1 ** int_ 2 * r) / p - w1 ** int_ 2)%np ], s)
  | (Raised e, _) =>
      shadowIpwFunctional_A params W_1 R c data s = (Raised e, s)
  end /\
  match rootsPrediction_Y params W_2 c data s with
  | (Ok p, _) =>
      shadowIpwFunctional_Y params W_1 W_2 R c data s
      = (Ok [ np_average (((w1 * w2) * r) / p - (w1 * w2))%np;
              np_average (((w1 * w2 + int_ 1) * r) / p - (w1 * w2 + int_ 1))%np;
              np_average (((w1 * w2 ** int_ 2) * r) / p
                          - (w1 * w2 ** int_ 2))%np;
              np_average (((w1 * w2 ** int_ 2 + int_ 1) * r) / p
                          - (w1 * w2 ** int_ 2 + int_ 1))%np ], s)
  | (Raised e, _) =>
      shadowIpwFunctional_Y params W_1 W_2 R c data s = (Raised e, s)
  end.
Proof.
  split.
  - destruct params as [|a [|b rest]]; reflexivity.
  - destruct params as [|a0 [|a1 [|g0 [|g1 rest]]]]; reflexivity.
Qed.

(** ** The verbose reports *)

Lemma no_negative X :
  Forall (fun k => (0 <= k <= 1)%Z) X -> existsb (fun x => Z.ltb x 0) X = false.
Proof.
  induction 1 as [|k X Hk _ IH]; cbn; [reflexivity|].
  rewrite IH. destruct (Z.ltb_spec k 0); [lia|reflexivity].
Qed.

Lemma bincount_top X :
  Forall (fun k => (0 <= k <= 1)%Z) X ->
  foldr Z.max (-1)%Z X = 1%Z /\ has_one X = true \/
  (foldr Z.max (-1)%Z X <= 0)%Z /\ has_one X = false.
Proof.
  unfold has_one.
  induction 1 as [|k X Hk _ IH]; cbn [foldr existsb];
    [right; split; [lia|reflexivity]|].
  assert (k = 0 \/ k = 1)%Z as [-> | ->] by lia; cbn [Z.eqb Pos.eqb orb].
  - destruct IH as [[-> ->] | [Hle ->]]; [left|right]; split;
      try reflexivity; lia.
  - left. split; [|reflexivity].
    destruct IH as [[-> _] | [Hle _]]; lia.
Qed.

Lemma print_proportion_run label X size i f g o :
  Forall (fun k => (0 <= k <= 1)%Z) X ->
  print_proportion label X size (State i f g o)
  = if has_one X
    then (Ok tt, State i f g (o ++ [proportion_line label X size]))
    else (Raised IndexError, State i f g o).
Proof.
  intros HX. unfold print_proportion, np_bincount.
  rewrite (no_negative X HX).
  destruct (bincount_top X HX) as [[-> ->] | [Hle ->]].
  - reflexivity.
  - unfold bind, lift, index.
    rewrite list_lookup_fmap.
    rewrite (lookup_ge_None_2 (seqZ 0 _) 1); [reflexivity|].
    rewrite length_seqZ. lia.
Qed.

Section Verbose.
Variable np_random : Sampler.

Lemma bind_ret_run {A B} (a : A) (k : A -> Py B) s : bind (ret a) k s = k a s.
Proof. reflexivity. Qed.

Lemma print_run items i f g o :
  print items (State i f g o) = (Ok tt, State i f g (o ++ [items])).
Proof. reflexivity. Qed.

Ltac loud_step X HX :=
  match goal with
  | |- context [bind (print_proportion ?l X ?sz) _ (State ?i ?f ?g ?o)] =>
      let P := fresh "P" in
      let H := fresh "H1" in
      pose proof (print_proportion_run l X sz i f g o HX) as P;
      destruct (has_one X) eqn:H; cbn [andb];
      [ rewrite (bind_run _ _ _ _ _ P); clear P
      | rewrite (bind_raise _ _ _ _ _ P); eauto ]
  end.

(** The exact outcome of a run: quiet, it returns and prints nothing;
    verbose, it returns and prints its five lines when every binary
    column has a 1, and raises IndexError at the first report otherwise,
    with no object created. *)
Lemma generateData_outcome size verbose i f g o rows g' :
  Spec.generate np_random size g = (rows, g') ->
  if negb verbose || all_have_one rows
  then generateData np_random size verbose (State i f g o) =
       (Ok (frame_at (length i) (length f),
            frame_at (length i + 6) (length f + 2)),
        State (i ++ int_columns rows
                 ++ [map row_A (map Spec.mask rows);
                     map row_Y (map Spec.mask rows)]
                 ++ int_columns (map Spec.mask rows))
              (f ++ float_columns rows ++ float_columns rows) g'
              (o ++ if verbose then verbose_lines size rows else []))
  else exists g'' o'',
      generateData np_random size verbose (State i f g o)
      = (Raised IndexError, State i f g'' o'').
Proof.
  unfold Spec.generate.
  pose proof (normal_length np_random 0 1 size g) as LW1.
  destruct (normal np_random 0 1 size g) as [W1 g1] eqn:E1.
  pose proof (normal_length np_random 0 1 size g1) as LN.
  destruct (normal np_random 0 1 size g1) as [N g2] eqn:E2.
  cbn [fst] in LW1, LN.
  set (W2 := zip_with (fun n w1 => n + 1.4 * w1) N W1).
  assert (LW2 : length W2 = size)
    by (unfold W2; rewrite length_zip_with; lia).
  set (pA := zip_with (fun w1 w2 => expit (w1 + w2)) W1 W2).
  pose proof (binomial_length np_random 1 pA g2) as LA.
  pose proof (binomial_range np_random 1 pA g2 ltac:(lia)) as RA.
  destruct (binomial np_random 1 pA g2) as [A g3] eqn:E3.
  set (pY := zip_with (fun w2 a => expit (w2 + IZR a - 0.4)) W2 A).
  pose proof (binomial_length np_random 1 pY g3) as LY.
  pose proof (binomial_range np_random 1 pY g3 ltac:(lia)) as RY.
  destruct (binomial np_random 1 pY g3) as [Y g4] eqn:E4.
  set (pRA := map (fun a => expit (2 * IZR a + 0.3)) A).
  pose proof (binomial_length np_random 1 pRA g4) as LRA.
  pose proof (binomial_range np_random 1 pRA g4 ltac:(lia)) as RRA.
  destruct (binomial np_random 1 pRA g4) as [R_A g5] eqn:E5.
  set (pRY := zip_with (fun y w2 => expit (2 * IZR y + w2 + 0.8)) Y W2).
  pose proof (binomial_length np_random 1 pRY g5) as LRY.
  pose proof (binomial_range np_random 1 pRY g5 ltac:(lia)) as RRY.
  destruct (binomial np_random 1 pRY g5) as [R_Y g6] eqn:E6.
  cbn [fst] in *.
  assert (LpA : length pA = size) by (unfold pA; rewrite length_zip_with; lia).
  assert (LpY : length pY = size) by (unfold pY; rewrite length_zip_with; lia).
  assert (LpRA : length pRA = size) by (unfold pRA; rewrite length_map; lia).
  assert (LpRY : length pRY = size) by (unfold pRY; rewrite length_zip_with; lia).
  assert (VpA : Forall (fun r => 0 <= r <= 1) pA)
    by (apply Forall_zip_with_all; intros; apply expit_unit).
  assert (VpY : Forall (fun r => 0 <= r <= 1) pY)
    by (apply Forall_zip_with_all; intros; apply expit_unit).
  assert (VpRA : Forall (fun r => 0 <= r <= 1) pRA)
    by (apply Forall_map_all; intros; apply expit_unit).
  assert (VpRY : Forall (fun r => 0 <= r <= 1) pRY)
    by (apply Forall_zip_with_all; intros; apply expit_unit).
  assert (HW2 : (Series (map Fin N) + float_ 1.4 * Series (map Fin W1))%np
                = Series (map Fin W2)) by (unfold W2; vnorm; reflexivity).
  assert (HpA : vexpit (Series (map Fin W1) + Series (map Fin W2))
                = Series (map Fin pA)) by (unfold pA; vnorm; reflexivity).
  assert (HpY : vexpit (Series (map Fin W2) + ISeries A - float_ 0.4)
                = Series (map Fin pY)) by (unfold pY; vnorm; reflexivity).
  assert (HpRA : vexpit (imul (int_ 2) (ISeries A) + float_ 0.3)
                 = Series (map Fin pRA)).
  { unfold pRA. vnorm. f_equal. apply (map_ext_Forall' _ _ _ _ RA).
    intros k Hk. cbn. now rewrite (wrap64_double _ Hk). }
  assert (HpRY : vexpit (imul (int_ 2) (ISeries Y) + Series (map Fin W2)
                         + float_ 0.8)
                 = Series (map Fin pRY)).
  { unfold pRY. vnorm. f_equal. apply (zip_with_ext_Forall_l _ _ _ _ _ RY).
    intros k w Hk. cbn. now rewrite (wrap64_double _ Hk). }
  intros [= <- <-].
  destruct (rows_of_columns size A Y W1 W2 R_A R_Y) as [Hi Hf]; try lia.
  set (rows := Spec.rows_of size A Y W1 W2 R_A R_Y) in *.
  unfold all_have_one, verbose_lines.
  rewrite int_columns_mask, <- assign_where_mask_A, <- assign_where_mask_Y.
  rewrite Hf. rewrite Hi.
  injection Hi as -> -> -> ->.
  destruct (generated_lookups i A Y R_A R_Y) as (HlA & HlY & HlRA & HlRY).
  unfold generateData.
  destruct verbose; cbn [when negb orb].
  - rewrite (bind_run _ _ _ _ _ (print_run _ _ _ _ _)).
    rewrite (bind_run _ _ _ _ _ (np_random_normal_run _ _ _ _ _ _)), E1.
    cbn [fst snd].
    rewrite (bind_run _ _ _ _ _ (np_random_normal_run _ _ _ _ _ _)), E2.
    cbn [fst snd]. cbv zeta. rewrite HW2, HpA.
    rewrite (bind_run _ _ _ _ _
               (np_random_binomial_run _ _ _ _ _ _ _ _ VpA LpA)), E3.
    cbn [fst snd]. loud_step A RA.
    rewrite HpY.
    rewrite (bind_run _ _ _ _ _
               (np_random_binomial_run _ _ _ _ _ _ _ _ VpY LpY)), E4.
    cbn [fst snd]. loud_step Y RY.
    rewrite HpRA.
    rewrite (bind_run _ _ _ _ _
               (np_random_binomial_run _ _ _ _ _ _ _ _ VpRA LpRA)), E5.
    cbn [fst snd]. loud_step R_A RRA.
    rewrite HpRY.
    rewrite (bind_run _ _ _ _ _
               (np_random_binomial_run _ _ _ _ _ _ _ _ VpRY LpRY)), E6.
    cbn [fst snd]. loud_step R_Y RRY.
    rewrite (bind_run _ _ _ _ _ (pd_DataFrame_run _ _ _ _ _ _ _ _ _ _)).
    cbn [column].
    rewrite (bind_run _ _ _ _ _
               (derive_partial_data_run (frame_at (length i) (length f))
                  _ _ _ _ _ _ _ _ _ _ _ _ HlA HlRA HlY HlRY)).
    unfold ret. rewrite !length_app. cbn [length].
    rewrite <- !app_assoc. cbn [app].
    now rewrite <- Nat.add_assoc.
  - rewrite bind_ret_run.
    rewrite (bind_run _ _ _ _ _ (np_random_normal_run _ _ _ _ _ _)), E1.
    cbn [fst snd].
    rewrite (bind_run _ _ _ _ _ (np_random_normal_run _ _ _ _ _ _)), E2.
    cbn [fst snd]. cbv zeta. rewrite HW2, HpA.
    rewrite (bind_run _ _ _ _ _
               (np_random_binomial_run _ _ _ _ _ _ _ _ VpA LpA)), E3.
    cbn [fst snd]. rewrite bind_ret_run. rewrite HpY.
    rewrite (bind_run _ _ _ _ _
               (np_random_binomial_run _ _ _ _ _ _ _ _ VpY LpY)), E4.
    cbn [fst snd]. rewrite bind_ret_run. rewrite HpRA.
    rewrite (bind_run _ _ _ _ _
               (np_random_binomial_run _ _ _ _ _ _ _ _ VpRA LpRA)), E5.
    cbn [fst snd]. rewrite bind_ret_run. rewrite HpRY.
    rewrite (bind_run _ _ _ _ _
               (np_random_binomial_run _ _ _ _ _ _ _ _ VpRY LpRY)), E6.
    cbn [fst snd]. rewrite bind_ret_run.
    rewrite (bind_run _ _ _ _ _ (pd_DataFrame_run _ _ _ _ _ _ _ _ _ _)).
    cbn [column].
    rewrite (bind_run _ _ _ _ _
               (derive_partial_data_run (frame_at (length i) (length f))
                  _ _ _ _ _ _ _ _ _ _ _ _ HlA HlRA HlY HlRY)).
    unfold ret. rewrite !length_app. cbn [length].
    rewrite <- !app_assoc. cbn [app]. rewrite app_nil_r.
    now rewrite <- Nat.add_assoc.
Qed.
End Verbose.

(** X4.  A verbose run reports [np.bincount(X)[1] / size] for X = A, Y,
    R_A, R_Y.  It returns, having printed the size and the four
    proportions of ones, exactly when each of the four generated columns
    contains a 1; otherwise the first report of a column without a 1
    raises IndexError, and no Series has been created.  With size 0 it
    always raises. *)
Theorem verbose_generateData_outcome np_random size s :
  let rows := (Spec.generate np_random size (rng s)).1 in
  (if all_have_one rows
   then exists full_data partial_data s',
       generateData np_random size true s = (Ok (full_data, partial_data), s') /\
       stdout s' = stdout s ++ verbose_lines size rows
   else exists s',
       generateData np_random size true s = (Raised IndexError, s') /\
       ints s' = ints s /\ floats s' = floats s) /\
  all_have_one (Spec.generate np_random 0 (rng s)).1 = false.
Proof.
  destruct s as [i f g o]. cbn [rng]. split.
  - destruct (Spec.generate np_random size g) as [rows g'] eqn:Egen.
    pose proof (generateData_outcome np_random size true i f g o rows g' Egen)
      as H.
    cbn [negb orb fst] in *. destruct (all_have_one rows).
    + rewrite H. eauto.
    + destruct H as (g'' & o'' & ->). eauto.
  - destruct (Spec.generate np_random 0 g) as [rows g'] eqn:Egen.
    destruct (generate_rows np_random 0 g rows g' Egen) as [Hlen _].
    cbn [fst]. now destruct rows.
Qed.

(** X5.  The flag [verbose] changes nothing but the output: a quiet run
    always returns and prints nothing, and a verbose run from the same
    state, when it returns, returns the same two frames, the same Series
    and the same generator state. *)
Theorem verbose_only_prints np_random size s :
  exists full_data partial_data quiet,
    generateData np_random size false s = (Ok (full_data, partial_data), quiet) /\
    stdout quiet = stdout s /\
    match generateData np_random size true s with
    | (Ok frames, loud) =>
        frames = (full_data, partial_data) /\
        ints loud = ints quiet /\ floats loud = floats quiet /\
        rng loud = rng quiet
    | (Raised e, _) => e = IndexError
    end.
Proof.
  destruct s as [i f g o].
  destruct (Spec.generate np_random size g) as [rows g'] eqn:Egen.
  pose proof (generateData_outcome np_random size false i f g o rows g' Egen)
    as Hq.
  pose proof (generateData_outcome np_random size true i f g o rows g' Egen)
    as Hv.
  cbn [negb orb] in Hq, Hv. rewrite Hq.
  do 3 eexists. split; [reflexivity|]. split; [cbn; apply app_nil_r|].
  destruct (all_have_one rows).
  - rewrite Hv. cbn. auto.
  - destruct Hv as (g'' & o'' & ->). reflexivity.
Qed.

(** X6.  The generator only adds to the store: every Series that existed
    before the call keeps its entries, also when a verbose run raises; and
    the twelve columns of the two frames it returns are new objects, no
    two of them the same, so the full and the partial dataset share no
    column. *)
Theorem generateData_allocates_fresh np_random size verbose s :
  match generateData np_random size verbose s with
  | (Ok (full_data, partial_data), s') =>
      (exists new_ints new_floats,
          ints s' = ints s ++ new_ints /\ floats s' = floats s ++ new_floats) /\
      Forall (fun a => (length (ints s) <= a < length (ints s'))%nat)
             (int_locs full_data ++ int_locs partial_data) /\
      Forall (fun a => (length (floats s) <= a < length (floats s'))%nat)
             (float_locs full_data ++ float_locs partial_data) /\
      NoDup (int_locs full_data ++ int_locs partial_data) /\
      NoDup (float_locs full_data ++ float_locs partial_data)
  | (Raised _, s') => ints s' = ints s /\ floats s' = floats s
  end.
Proof.
  destruct s as [i f g o].
  destruct (Spec.generate np_random size g) as [rows g'] eqn:Egen.
  pose proof (generateData_outcome np_random size verbose i f g o rows g' Egen)
    as H.
  destruct (negb verbose || all_have_one rows).
  - rewrite H. cbn [ints floats]. split; [eauto|].
    unfold int_locs, float_locs, frame_at, int_columns, float_columns.
    cbn [col_A col_Y col_W1 col_W2 col_R_A col_R_Y app].
    rewrite !length_app. cbn [length].
    repeat split.
    + repeat constructor; lia.
    + repeat constructor; lia.
    + repeat (constructor; [rewrite ?elem_of_cons, elem_of_nil; lia|]).
      constructor.
    + repeat (constructor; [rewrite ?elem_of_cons, elem_of_nil; lia|]).
      constructor.
  - destruct H as (g'' & o'' & ->). split; reflexivity.
Qed.

(** ** The baseline of the predictions *)

Lemma p1_baseline p0 g : Spec.p1 (Fin p0) (Fin g) 0 = Fin p0.
Proof.
  unfold Spec.p1, fpow. cbn [Z.eqb fsub fneg fadd fmul fdiv].
  destruct (Req_dec_T (p0 + 1 * (1 + - p0)) 0); [lra|].
  f_equal. field. lra.
Qed.

(** X8.  The odds ratio only enters at the rows with A other than 0: at a
    row with A = 0 the exposure predictor returns sigmoid (alpha), the
    baseline, whatever gamma is. *)
Theorem exposure_prediction_baseline s data rows alpha gamma :
  represents s data rows ->
  exists predictions,
    rootsPrediction_A [alpha; gamma] Col.A data s
    = (Ok (Series predictions), s) /\
    Forall2 (fun u p => row_A u = 0%Z -> p = Fin (expit alpha))
            rows predictions.
Proof.
  intros H. eexists. split; [apply (rootsPrediction_A_run _ _ _ _ _ H)|].
  apply Forall2_fmap_r, Forall_Forall2_diag, Forall_forall.
  intros u _. unfold Spec.p1_A. intros ->. apply p1_baseline.
Qed.

Lemma exposure_prediction_baseline_witness :
  exists p,
    rootsPrediction_A [0; 3] Col.A (frame_at 0 0) (store_of two_rows)
    = (Ok (Series [p; Fin (expit 0)]), store_of two_rows).
Proof.
  destruct (exposure_prediction_baseline (store_of two_rows) (frame_at 0 0)
              two_rows 0 3) as (predictions & E & F).
  - split; intros []; reflexivity.
  - inversion F as [|u1 p1 l1 l1' _ F1]; subst.
    inversion F1 as [|u2 p2 l2 l2' H2 F2]; subst.
    inversion F2; subst.
    rewrite (H2 eq_refl) in E. exists p1. exact E.
Defined.

(** X9.  The same for the outcome predictor, row by row: at a row with
    Y = 0 it returns the baseline sigmoid (alpha_0 + alpha_1 * W2),
    whatever gamma_0 and gamma_1 are. *)
Theorem outcome_prediction_baseline s data rows alpha_0 alpha_1 gamma_0 gamma_1 :
  represents s data rows ->
  exists predictions,
    rootsPrediction_Y [alpha_0; alpha_1; gamma_0; gamma_1] Col.W2 Col.Y data s
    = (Ok (Series predictions), s) /\
    Forall2 (fun u p =>
               row_Y u = 0%Z ->
               p = Fin (expit (alpha_0 + alpha_1 * row_W2 u)))
            rows predictions.
Proof.
  intros H. eexists. split; [apply (rootsPrediction_Y_run _ _ _ _ _ _ _ H)|].
  apply Forall2_fmap_r, Forall_Forall2_diag, Forall_forall.
  intros u _. unfold Spec.p1_Y, Spec.p0_Y, Spec.odds_Y.
  intros ->. apply p1_baseline.
Qed.

Lemma outcome_prediction_baseline_witness :
  exists p,
    rootsPrediction_Y [0; 0; 2; 1] Col.W2 Col.Y (frame_at 0 0)
      (store_of two_rows)
    = (Ok (Series [Fin (expit (0 + 0 * 2)); p]), store_of two_rows).
Proof.
  destruct (outcome_prediction_baseline (store_of two_rows) (frame_at 0 0)
              two_rows 0 0 2 1) as (predictions & E & F).
  - split; intros []; reflexivity.
  - inversion F as [|u1 p1 l1 l1' H1 F1]; subst.
    inversion F1 as [|u2 p2 l2 l2' _ F2]; subst.
    inversion F2; subst.
    rewrite (H1 eq_refl) in E. exists p2. exact E.
Defined.

(** ** Selecting rows *)

Lemma select_rows {X} (g : row -> X) c v rows :
  select (eq_int (map (isel c) rows) v) (map g rows)
  = map g (rows_where c v rows).
Proof.
  unfold rows_where, eq_int.
  induction rows as [|u rows IH]; [reflexivity|].
  cbn [map select]. rewrite filter_cons.
  destruct (Z.eqb_spec (isel c u) v) as [E|E];
    destruct (decide (isel c u = v)) as [D|D]; try contradiction.
  - cbn [map]. now rewrite IH.
  - exact IH.
Qed.

Lemma get_float_run a l i f g o :
  f !! a = Some l -> get_float a (State i f g o) = (Ok l, State i f g o).
Proof. intros H. unfold get_float, read_float. cbn [floats]. now rewrite H. Qed.

Lemma getitem_where_run i f g o df rows c v :
  represents (State i f g o) df rows ->
  getitem_where df c v (State i f g o)
  = (Ok (frame_at (length i) (length f)),
     State (i ++ int_columns (rows_where c v rows))
           (f ++ float_columns (rows_where c v rows)) g o).
Proof.
  intros [Hf Hi]. cbn [ints floats] in Hf, Hi. unfold getitem_where.
  rewrite (bind_run _ _ _ _ _ (get_int_run _ _ _ _ _ _ (Hi c))).
  rewrite (bind_run _ _ _ _ _ (get_int_run _ _ _ _ _ _ (Hi Col.A))).
  rewrite (bind_run _ _ _ _ _ (get_int_run _ _ _ _ _ _ (Hi Col.Y))).
  rewrite (bind_run _ _ _ _ _ (get_float_run _ _ _ _ _ _ (Hf Col.W1))).
  rewrite (bind_run _ _ _ _ _ (get_float_run _ _ _ _ _ _ (Hf Col.W2))).
  rewrite (bind_run _ _ _ _ _ (get_int_run _ _ _ _ _ _ (Hi Col.R_A))).
  rewrite (bind_run _ _ _ _ _ (get_int_run _ _ _ _ _ _ (Hi Col.R_Y))).
  rewrite pd_DataFrame_run. rewrite !select_rows. reflexivity.
Qed.

Lemma represents_extended i f g o df rows new_i new_f :
  represents (State i f g o) df rows ->
  represents (State (i ++ new_i) (f ++ new_f) g o) df rows.
Proof.
  intros [Hf Hi]. cbn [ints floats] in Hf, Hi.
  split; intros c; cbn [ints floats].
  - now apply lookup_app_l_Some.
  - now apply lookup_app_l_Some.
Qed.

Lemma represents_appended i f g o rows :
  represents (State (i ++ int_columns rows) (f ++ float_columns rows) g o)
             (frame_at (length i) (length f)) rows.
Proof.
  pose proof (represents_frame_at i f g o rows [] []) as H.
  now rewrite !app_nil_r in H.
Qed.

(** X10.  Selecting the rows of a dataset whose column c equals v returns a
    new frame that holds exactly those rows, in their order; the frame
    selected from still holds all its rows (the selection is a copy, not a
    view), the store only grows by the six new columns, and nothing is
    drawn or printed. *)
Theorem getitem_where_selects s df rows c v :
  represents s df rows ->
  exists df' s',
    getitem_where df c v s = (Ok df', s') /\
    represents s' df' (rows_where c v rows) /\
    Forall (fun u => isel c u = v) (rows_where c v rows) /\
    represents s' df rows /\
    ints s' = ints s ++ int_columns (rows_where c v rows) /\
    floats s' = floats s ++ float_columns (rows_where c v rows) /\
    rng s' = rng s /\ stdout s' = stdout s.
Proof.
  destruct s as [i f g o]. intros H.
  eexists _, _. split; [apply (getitem_where_run _ _ _ _ _ _ _ _ H)|].
  split; [apply represents_appended|].
  split; [|split; [now apply represents_extended|now cbn]].
  apply Forall_forall. intros u Hu.
  now apply list_elem_of_filter in Hu as [Hu _].
Qed.

Lemma getitem_where_selects_witness :
  exists df' s',
    getitem_where (frame_at 0 0) Col.Y 1 (store_of two_rows) = (Ok df', s') /\
    represents s' df' [mkRow 0 1 3 (-1) 0 0] /\
    represents s' (frame_at 0 0) two_rows.
Proof.
  destruct (getitem_where_selects (store_of two_rows) (frame_at 0 0)
              two_rows Col.Y 1 (represents_store_of two_rows))
    as (df' & s' & E & H' & _ & H & _).
  exists df', s'. split; [exact E|]. split; [exact H'|exact H].
Defined.

(** ** The predictions the main block prints *)

Lemma rows_where_mask_A rows :
  map (fun u => row_A u) (rows_where Col.R_A 1 (map Spec.mask rows))
  = map row_A (rows_where Col.R_A 1 rows).
Proof.
  unfold rows_where.
  induction rows as [|u rows IH]; [reflexivity|].
  cbn [map]. rewrite !filter_cons.
  cbn [isel Spec.mask Spec.mask_with row_R_A].
  destruct (decide (row_R_A u = 1%Z)) as [E|E]; [|exact IH].
  cbn [map]. f_equal; [|exact IH].
  cbn [Spec.mask Spec.mask_with row_A]. now rewrite E.
Qed.

Lemma rows_where_mask_Y rows :
  map (fun u => (row_Y u, row_W2 u))
      (rows_where Col.R_Y 1 (map Spec.mask rows))
  = map (fun u => (row_Y u, row_W2 u)) (rows_where Col.R_Y 1 rows).
Proof.
  unfold rows_where.
  induction rows as [|u rows IH]; [reflexivity|].
  cbn [map]. rewrite !filter_cons.
  cbn [isel Spec.mask Spec.mask_with row_R_Y].
  destruct (decide (row_R_Y u = 1%Z)) as [E|E]; [|exact IH].
  cbn [map]. f_equal; [|exact IH].
  cbn [Spec.mask Spec.mask_with row_Y row_W2]. now rewrite E.
Qed.

Lemma predict_observed_A_run s data rows alpha gamma :
  represents s data rows ->
  exists s',
    predict_observed_A [alpha; gamma] data s
    = (Ok (Series (map (fun x => Spec.p1 (Fin (expit alpha)) (Fin gamma) x)
                       (map row_A (rows_where Col.R_A 1 rows)))), s').
Proof.
  destruct s as [i f g o]. intros H. unfold predict_observed_A.
  rewrite (bind_run _ _ _ _ _ (getitem_where_run _ _ _ _ _ _ _ _ H)).
  rewrite (rootsPrediction_A_run _ _ _ _ _ (represents_appended _ _ _ _ _)).
  eexists. rewrite map_map_fuse. reflexivity.
Qed.

Lemma predict_observed_Y_run s data rows alpha_0 alpha_1 gamma_0 gamma_1 :
  represents s data rows ->
  exists s',
    predict_observed_Y [alpha_0; alpha_1; gamma_0; gamma_1] data s
    = (Ok (Series (map (fun yw =>
                          Spec.p1 (Fin (expit (alpha_0 + alpha_1 * yw.2)))
                                  (Fin (gamma_0 + gamma_1 * yw.2)) yw.1)
                       (map (fun u => (row_Y u, row_W2 u))
                            (rows_where Col.R_Y 1 rows)))), s').
Proof.
  destruct s as [i f g o]. intros H. unfold predict_observed_Y.
  rewrite (bind_run _ _ _ _ _ (getitem_where_run _ _ _ _ _ _ _ _ H)).
  rewrite (rootsPrediction_Y_run _ _ _ _ _ _ _ (represents_appended _ _ _ _ _)).
  eexists. rewrite map_map_fuse. reflexivity.
Qed.

(** X11.  The exposure predictions of the main block never see the
    sentinel: computed on the rows of the partial dataset with R_A = 1,
    they are the predictions one gets from the fully observed dataset on
    its rows with R_A = 1, whatever the two parameters are. *)
Theorem observed_exposure_predictions s full_data partial_data rows alpha gamma :
  represents s full_data rows ->
  represents s partial_data (map Spec.mask rows) ->
  exists predictions s1 s2,
    predict_observed_A [alpha; gamma] partial_data s
    = (Ok (Series predictions), s1) /\
    predict_observed_A [alpha; gamma] full_data s
    = (Ok (Series predictions), s2) /\
    predictions
    = map (Spec.p1_A alpha gamma) (rows_where Col.R_A 1 rows).
Proof.
  intros Hfull Hpartial.
  destruct (predict_observed_A_run _ _ _ alpha gamma Hpartial) as [s1 E1].
  destruct (predict_observed_A_run _ _ _ alpha gamma Hfull) as [s2 E2].
  rewrite rows_where_mask_A in E1.
  eexists _, s1, s2. split; [exact E1|]. split; [exact E2|].
  now rewrite map_map_fuse.
Qed.

(** X12.  The same for the outcome: on the rows of the partial dataset
    with R_Y = 1 the outcome predictions are those of the fully observed
    dataset on its rows with R_Y = 1, whatever the four parameters are. *)
Theorem observed_outcome_predictions s full_data partial_data rows
    alpha_0 alpha_1 gamma_0 gamma_1 :
  represents s full_data rows ->
  represents s partial_data (map Spec.mask rows) ->
  exists predictions s1 s2,
    predict_observed_Y [alpha_0; alpha_1; gamma_0; gamma_1] partial_data s
    = (Ok (Series predictions), s1) /\
    predict_observed_Y [alpha_0; alpha_1; gamma_0; gamma_1] full_data s
    = (Ok (Series predictions), s2) /\
    predictions
    = map (Spec.p1_Y alpha_0 alpha_1 gamma_0 gamma_1)
          (rows_where Col.R_Y 1 rows).
Proof.
  intros Hfull Hpartial.
  destruct (predict_observed_Y_run _ _ _ alpha_0 alpha_1 gamma_0 gamma_1
              Hpartial) as [s1 E1].
  destruct (predict_observed_Y_run _ _ _ alpha_0 alpha_1 gamma_0 gamma_1
              Hfull) as [s2 E2].
  rewrite rows_where_mask_Y in E1.
  eexists _, s1, s2. split; [exact E1|]. split; [exact E2|].
  now rewrite map_map_fuse.
Qed.

Lemma observed_exposure_predictions_witness :
  let s := State (int_columns two_rows ++ int_columns (map Spec.mask two_rows))
                 (float_columns two_rows
                  ++ float_columns (map Spec.mask two_rows)) [] [] in
  exists s1 s2,
    predict_observed_A [0; 3] (frame_at 4 2) s
    = (Ok (Series (map (Spec.p1_A 0 3) (rows_where Col.R_A 1 two_rows))), s1) /\
    predict_observed_A [0; 3] (frame_at 0 0) s
    = (Ok (Series (map (Spec.p1_A 0 3) (rows_where Col.R_A 1 two_rows))), s2).
Proof.
  intros s.
  destruct (observed_exposure_predictions s (frame_at 0 0) (frame_at 4 2)
              two_rows 0 3) as (p & s1 & s2 & E1 & E2 & Ep).
  - split; intros []; reflexivity.
  - split; intros []; reflexivity.
  - subst p. exists s1, s2. split; [exact E1|exact E2].
Defined.

Lemma observed_outcome_predictions_witness :
  let s := State (int_columns two_rows ++ int_columns (map Spec.mask two_rows))
                 (float_columns two_rows
                  ++ float_columns (map Spec.mask two_rows)) [] [] in
  exists s1 s2,
    predict_observed_Y [0; 0; 2; 1] (frame_at 4 2) s
    = (Ok (Series (map (Spec.p1_Y 0 0 2 1) (rows_where Col.R_Y 1 two_rows))),
       s1) /\
    predict_observed_Y [0; 0; 2; 1] (frame_at 0 0) s
    = (Ok (Series (map (Spec.p1_Y 0 0 2 1) (rows_where Col.R_Y 1 two_rows))),
       s2).
Proof.
  intros s.
  destruct (observed_outcome_predictions s (frame_at 0 0) (frame_at 4 2)
              two_rows 0 0 2 1) as (p & s1 & s2 & E1 & E2 & Ep).
  - split; intros []; reflexivity.
  - split; intros []; reflexivity.
  - subst p. exists s1, s2. split; [exact E1|exact E2].
Defined.

(** ** The observed rates the main block prints *)

Lemma fsum_binary l :
  Forall binary l -> fsum (map of_int l) = Fin (IZR (count_ones l)).
Proof.
  unfold count_ones. intros H.
  induction H as [|x l [-> | ->] _ IH]; [reflexivity| |];
    cbn [map fsum foldr]; fold (fsum (map of_int l)); rewrite IH;
    rewrite filter_cons; unfold of_int; cbn [fadd].
  - destruct (decide (0 = 1)%Z) as [D|_]; [discriminate D|].
    f_equal. lra.
  - destruct (decide (1 = 1)%Z) as [_|D]; [|contradiction].
    cbn [length]. rewrite Nat2Z.inj_succ, succ_IZR. f_equal. lra.
Qed.

(** X13.  Each observed rate of the main block is the share of rows with
    R_A = 1 among the rows of the fully observed dataset with A = a; when
    no row has A = a the line reads nan and nothing is raised.  One line is
    printed, and the dataset is still in its frame afterwards. *)
Theorem observed_rate_printed s full_data rows a :
  represents s full_data rows ->
  Forall (fun u => binary (row_R_A u)) rows ->
  exists s',
    print_observed_rate full_data a s = (Ok tt, s') /\
    stdout s'
    = stdout s ++
      [[PyFloat
          (let selected := rows_where Col.A a rows in
           if bool_decide (selected = [])
           then NaN
           else Fin (IZR (count_ones (map row_R_A selected))
                     / INR (length selected)))]] /\
    represents s' full_data rows.
Proof.
  destruct s as [i f g o]. intros H Hb. unfold print_observed_rate.
  rewrite (bind_run _ _ _ _ _ (getitem_where_run _ _ _ _ _ _ _ _ H)).
  rewrite (bind_run _ _ _ _ _
             (getitem_i_represents _ _ _ _ (represents_appended _ _ _ _ _))).
  cbv beta. eexists. split; [reflexivity|]. cbn [stdout ints floats rng].
  split; [|now apply represents_extended].
  do 3 f_equal. cbn [isel promote np_average].
  assert (Hsel : Forall binary (map row_R_A (rows_where Col.A a rows))).
  { apply Forall_fmap, Forall_forall. intros u Hu.
    apply list_elem_of_filter in Hu as [_ Hu].
    rewrite Forall_forall in Hb. exact (Hb u Hu). }
  change (isel Col.R_A) with row_R_A. f_equal.
  rewrite (fsum_binary _ Hsel), !length_map. cbn [fdiv].
  destruct (rows_where Col.A a rows) as [|u sel] eqn:E.
  - cbn [map length INR]. unfold count_ones. rewrite filter_nil.
    cbn [length Z.of_nat].
    destruct (Req_dec_T 0 0) as [_|N]; [|contradiction].
    destruct (Req_dec_T (IZR (Z.of_nat 0)) 0) as [_|N]; [|contradiction].
    reflexivity.
  - rewrite bool_decide_eq_false_2 by discriminate.
    destruct (Req_dec_T (INR (length (u :: sel))) 0) as [N|_]; [|reflexivity].
    now apply not_0_INR in N.
Qed.

Lemma observed_rate_printed_witness :
  exists s',
    print_observed_rate (frame_at 0 0) 1 (store_of two_rows) = (Ok tt, s') /\
    stdout s' = [] ++ [[PyFloat (Fin (IZR 1 / INR 1))]].
Proof.
  assert (Hb : Forall (fun u => binary (row_R_A u)) two_rows).
  { constructor; [now right|]. constructor; [now left|constructor]. }
  destruct (observed_rate_printed (store_of two_rows) (frame_at 0 0) two_rows
              1 (represents_store_of two_rows) Hb) as (s' & E & Ho & _).
  exists s'. split; [exact E|exact Ho].
Defined.

(** ** An odds ratio of one *)

Lemma p1_unit_odds p0 x : 0 < p0 -> Spec.p1 (Fin p0) (Fin 1) x = Fin p0.
Proof.
  intros Hp. unfold Spec.p1, fpow.
  assert (E : (if Z.eqb x 0 then Fin 1
               else if Z.ltb x 0
                    then (if Req_dec_T 1 0 then PInf else Fin (powerRZ 1 x))
                    else Fin (powerRZ 1 x)) = Fin 1).
  { rewrite powerRZ_R1. destruct (Z.eqb x 0); [reflexivity|].
    destruct (Z.ltb x 0); [|reflexivity].
    destruct (Req_dec_T 1 0); [lra|reflexivity]. }
  rewrite E. cbn [fsub fneg fadd fmul fdiv].
  destruct (Req_dec_T (p0 + 1 * (1 + - p0)) 0); [lra|].
  f_equal. field. lra.
Qed.

(** X14.  With an odds ratio of one (the value the main block starts the
    solver from) the exposure model does not look at A: every prediction is
    sigmoid (alpha), also at a row whose A is the sentinel, and the two
    residuals computed on the partial dataset are those computed on the
    fully observed one. *)
Theorem unit_odds_ignores_exposure s full_data partial_data rows alpha :
  represents s full_data rows ->
  represents s partial_data (map Spec.mask rows) ->
  rootsPrediction_A [alpha; 1] Col.A partial_data s
  = (Ok (Series (replicate (length rows) (Fin (expit alpha)))), s) /\
  shadowIpwFunctional_A [alpha; 1] Col.W1 Col.R_A Col.A partial_data s
  = shadowIpwFunctional_A [alpha; 1] Col.W1 Col.R_A Col.A full_data s.
Proof.
  intros Hfull Hpartial. split.
  - rewrite (rootsPrediction_A_run _ _ _ _ _ Hpartial).
    rewrite <- (length_map Spec.mask rows). do 3 f_equal.
    generalize (map Spec.mask rows).
    intros l. induction l as [|u l IH]; [reflexivity|].
    cbn [map length replicate]. f_equal; [|exact IH].
    apply p1_unit_odds, expit_range.
  - rewrite (shadowIpwFunctional_A_run _ _ _ _ _ Hpartial),
            (shadowIpwFunctional_A_run _ _ _ _ _ Hfull).
    assert (E : Spec.residuals_A alpha 1 (map Spec.mask rows)
                = Spec.residuals_A alpha 1 rows).
    { unfold Spec.residuals_A.
      f_equal; [|f_equal]; apply average_mask_with; intros u;
        unfold Spec.p1_A; rewrite !p1_unit_odds by apply expit_range;
        reflexivity. }
    now rewrite E.
Qed.

Lemma unit_odds_ignores_exposure_witness :
  let s := State (int_columns two_rows ++ int_columns (map Spec.mask two_rows))
                 (float_columns two_rows
                  ++ float_columns (map Spec.mask two_rows)) [] [] in
  rootsPrediction_A [0; 1] Col.A (frame_at 4 2) s
  = (Ok (Series [Fin (expit 0); Fin (expit 0)]), s) /\
  shadowIpwFunctional_A [0; 1] Col.W1 Col.R_A Col.A (frame_at 4 2) s
  = shadowIpwFunctional_A [0; 1] Col.W1 Col.R_A Col.A (frame_at 0 0) s.
Proof.
  intros s.
  apply (unit_odds_ignores_exposure s (frame_at 0 0) (frame_at 4 2)
           two_rows 0).
  - split; intros []; reflexivity.
  - split; intros []; reflexivity.
Defined.

(** ** An odds ratio of zero *)

Lemma fsum_NaN l : NaN ∈ l -> fsum l = NaN.
Proof.
  induction l as [|x l IH]; intros H.
  - now apply elem_of_nil in H.
  - cbn [fsum foldr]. fold (fsum l).
    apply elem_of_cons in H as [<- | H]; [reflexivity|].
    rewrite (IH H). now destruct x.
Qed.

Lemma average_NaN (f : row -> float64) rows u :
  u ∈ rows -> f u = NaN -> Spec.average f rows = NaN.
Proof.
  intros Hu Hf. unfold Spec.average. rewrite fsum_NaN; [reflexivity|].
  rewrite <- Hf. now apply list_elem_of_fmap_2.
Qed.

Lemma ipw_zero_odds h p0 x :
  0 < p0 < 1 -> (x < 0)%Z ->
  Spec.ipw (Fin h) 0 (Spec.p1 (Fin p0) (Fin 0) x) = NaN.
Proof.
  intros Hp0 Hx. unfold Spec.ipw, Spec.p1, fpow.
  destruct (Z.eqb_spec x 0) as [E|_]; [lia|].
  destruct (Z.ltb_spec x 0) as [_|E]; [|lia].
  destruct (Req_dec_T 0 0) as [_|N]; [|contradiction].
  fcompute. reflexivity.
Qed.

(** X15.  An odds ratio of zero breaks the exposure equations on masked
    data: if some row has R_A = 0 and a negative A (the sentinel), that row
    divides 0 by 0 and both residuals are nan, for every alpha.  Nothing is
    raised. *)
Theorem zero_odds_poisons_exposure s data rows alpha :
  represents s data rows ->
  Exists (fun u => row_R_A u = 0%Z /\ (row_A u < 0)%Z) rows ->
  shadowIpwFunctional_A [alpha; 0] Col.W1 Col.R_A Col.A data s
  = (Ok [NaN; NaN], s).
Proof.
  intros H Hex. rewrite (shadowIpwFunctional_A_run _ _ _ _ _ H).
  apply Exists_exists in Hex as (u & Hu & HR & HA).
  unfold Spec.residuals_A.
  rewrite !(average_NaN _ rows u Hu); [reflexivity| |];
    unfold Spec.p1_A; rewrite HR;
    apply ipw_zero_odds; [apply expit_range|exact HA|apply expit_range|exact HA].
Qed.

Lemma zero_odds_poisons_exposure_witness :
  shadowIpwFunctional_A [0; 0] Col.W1 Col.R_A Col.A (frame_at 0 0)
    (store_of (map Spec.mask two_rows))
  = (Ok [NaN; NaN], store_of (map Spec.mask two_rows)).
Proof.
  apply (zero_odds_poisons_exposure _ _ (map Spec.mask two_rows) 0).
  - split; intros []; reflexivity.
  - right. left. split; reflexivity.
Defined.
